(** * Camera capture for OCR: luminance sampling, pixel filters, capture sequence

    A shallow embedding of the image utilities ([isLowLight],
    [applyFilters], [clamp], imported by the component from
    [../utils/imageUtils]) and of [captureStrategy] / [setTorch] from
    [src/components/CameraView.jsx], followed by the properties of the
    specification that concern them.  The handlers around the capture
    ([startCamera], [switchCamera], [handleZoomChange], [handleTapToFocus])
    and their properties come after.

    JavaScript numbers are IEEE-754 binary64 values; they are modelled with
    the executable specification of the Standard Library ([SpecFloat]), so
    every arithmetic step below rounds exactly as the engine does. *)

From Stdlib Require Import ZArith List Bool Lia String.
From Stdlib Require Import Floats.SpecFloat.
Import ListNotations.
Local Open Scope Z_scope.

(* ================================================================== *)
(** ** JavaScript numbers *)

Module JS.

Definition number := spec_float.

Definition prec : Z := 53.
Definition emax : Z := 1024.

Definition NaN : number := S754_nan.

(** The number denoted by an integer literal or read from a byte array. *)
Definition ofZ (z : Z) : number := binary_normalize prec emax z 0 false.

Definition add : number -> number -> number := SFadd prec emax.
Definition sub : number -> number -> number := SFsub prec emax.
Definition mul : number -> number -> number := SFmul prec emax.
Definition div : number -> number -> number := SFdiv prec emax.

(** A decimal literal [n/d] (such as [0.299 = 299/1000]) denotes the
    double nearest to its mathematical value, which is what the correctly
    rounded quotient of the two exactly representable integers gives. *)
Definition decimal (n d : Z) : number := div (ofZ n) (ofZ d).

(** [x < y], [x === y] and [x !== y] on numbers; all three are [false],
    [false], [true] as soon as one side is [NaN]. *)
Definition lt (x y : number) : bool := SFltb x y.
Definition strict_eq (x y : number) : bool := SFeqb x y.
Definition strict_ne (x y : number) : bool := negb (SFeqb x y).

(** [Math.min] and [Math.max] on two arguments: [NaN] is contagious and
    [-0] is smaller than [+0]. *)
Definition Math_min (x y : number) : number :=
  match x, y with
  | S754_nan, _ | _, S754_nan => NaN
  | _, _ =>
      if lt y x then y
      else if lt x y then x
      else match x with S754_zero true => x | _ => y end
  end.

Definition Math_max (x y : number) : number :=
  match x, y with
  | S754_nan, _ | _, S754_nan => NaN
  | _, _ =>
      if lt x y then y
      else if lt y x then x
      else match x with S754_zero false => x | _ => y end
  end.

(** Nearest integer of the positive value [m * 2^e], ties to even. *)
Definition roundHalfEven (m : positive) (e : Z) : Z :=
  match e with
  | Zneg p =>
      let d := Z.pow_pos 2 p in
      let q := Z.pos m / d in
      let r := Z.pos m mod d in
      match 2 * r ?= d with
      | Lt => q
      | Gt => q + 1
      | Eq => if Z.even q then q else q + 1
      end
  | _ => Z.pos m * 2 ^ e
  end.

(** [ToUint8Clamp]: the conversion a [Uint8ClampedArray] applies to every
    value stored in it.  [NaN] becomes 0, the value is clamped to
    [0, 255] and rounded to the nearest integer, ties to even. *)
Definition ToUint8Clamp (x : number) : Z :=
  match x with
  | S754_nan => 0
  | S754_zero _ => 0
  | S754_infinity s => if s then 0 else 255
  | S754_finite s m e => if s then 0 else Z.min 255 (roundHalfEven m e)
  end.

(** [ToNumber] of an array read: an index past the end reads [undefined],
    which every arithmetic operator turns into [NaN]. *)
Definition ToNumber (v : option Z) : number :=
  match v with
  | Some z => ofZ z
  | None => NaN
  end.

End JS.

Declare Scope js_scope.
Delimit Scope js_scope with js.
Notation "x + y" := (JS.add x y) : js_scope.
Notation "x - y" := (JS.sub x y) : js_scope.
Notation "x * y" := (JS.mul x y) : js_scope.
Notation "x / y" := (JS.div x y) : js_scope.
Notation "x <? y" := (JS.lt x y) : js_scope.
Notation "x !== y" := (JS.strict_ne x y) (at level 70, no associativity) : js_scope.
Notation "# z" := (JS.ofZ z) (at level 1, format "# z") : js_scope.

(* ================================================================== *)
(** ** The image utilities *)

Module ImageUtils.
Import JS.

(** *** Numeric literals of the module *)
Definition c0_299 : number := decimal 299 1000.
Definition c0_587 : number := decimal 587 1000.
Definition c0_114 : number := decimal 114 1000.

(** [function clamp(value) { return Math.max(0, Math.min(255, value)); }] *)
Definition clamp (value : number) : number :=
  Math_max #0%js (Math_min #255%js value).

(** The "standard luminance formula" both loops use:
    [0.299 * r + 0.587 * g + 0.114 * b], evaluated left to right. *)
Definition luminance (r g b : number) : number :=
  (c0_299 * r + c0_587 * g + c0_114 * b)%js.

(** *** The options object of [applyFilters]

    A field is [None] when the caller left the property out; the
    destructuring defaults then apply. *)
Record FilterOptions := {
  grayscale : option bool;
  contrast : option number;
  brightness : option number;
  sharpen : option number
}.

Definition grayscale_of (o : FilterOptions) : bool :=
  match grayscale o with Some g => g | None => false end.
Definition contrast_of (o : FilterOptions) : number :=
  match contrast o with Some c => c | None => #1%js end.
Definition brightness_of (o : FilterOptions) : number :=
  match brightness o with Some b => b | None => #0%js end.
Definition sharpen_of (o : FilterOptions) : number :=
  match sharpen o with Some s => s | None => #0%js end.

(** [const factor = (259 * (contrast * 255 + 255)) / (255 * (259 - contrast * 255));] *)
Definition contrastFactor (contrast : number) : number :=
  ((#259 * (contrast * #255 + #255)) / (#255 * (#259 - contrast * #255)))%js.

Definition rgb : Type := number * number * number.

(** *** The three stages of the loop body *)

Definition grayscaleStage (grayscale : bool) (p : rgb) : rgb :=
  let '(r, g, b) := p in
  if grayscale then
    let gray := luminance r g b in (gray, gray, gray)
  else p.

Definition contrastStage (contrast factor : number) (p : rgb) : rgb :=
  let '(r, g, b) := p in
  if (contrast !== #1)%js then
    ((factor * (r - #128) + #128)%js,
     (factor * (g - #128) + #128)%js,
     (factor * (b - #128) + #128)%js)
  else p.

Definition brightnessStage (brightness : number) (p : rgb) : rgb :=
  let '(r, g, b) := p in
  if (brightness !== #0)%js then
    ((r + brightness)%js, (g + brightness)%js, (b + brightness)%js)
  else p.

(** [data[i] = clamp(r)]: the clamped number is stored in the
    [Uint8ClampedArray] of the [ImageData]. *)
Definition store (v : number) : Z := ToUint8Clamp (clamp v).

(** One iteration of the loop: the three channels read at [i], [i+1],
    [i+2] and the three bytes written back. *)
Definition filterPixel (grayscale : bool) (contrast brightness factor : number)
    (r g b : option Z) : Z * Z * Z :=
  let p := (ToNumber r, ToNumber g, ToNumber b) in
  let p := grayscaleStage grayscale p in
  let p := contrastStage contrast factor p in
  let '(r', g', b') := brightnessStage brightness p in
  (store r', store g', store b').

(** [for (let i = 0; i < data.length; i += 4) { ... }]

    Each iteration consumes four bytes, hands the first three to the body
    and leaves the fourth (alpha) alone.  An [ImageData] buffer always
    holds a multiple of four bytes; for a shorter last group the reads
    past the end give [undefined] and the writes past the end are
    dropped, as typed arrays do. *)
Fixpoint forEachPixel (body : option Z -> option Z -> option Z -> Z * Z * Z)
    (data : list Z) : list Z :=
  match data with
  | [] => []
  | r :: g :: b :: a :: rest =>
      let '(r', g', b') := body (Some r) (Some g) (Some b) in
      r' :: g' :: b' :: a :: forEachPixel body rest
  | [r; g; b] =>
      let '(r', g', b') := body (Some r) (Some g) (Some b) in
      [r'; g'; b']
  | [r; g] =>
      let '(r', g', _) := body (Some r) (Some g) None in
      [r'; g']
  | [r] =>
      let '(r', _, _) := body (Some r) None None in
      [r']
  end.

Definition filterLoop (grayscale : bool) (contrast brightness factor : number)
    (data : list Z) : list Z :=
  forEachPixel (filterPixel grayscale contrast brightness factor) data.

(** [if (grayscale || contrast !== 1.0 || brightness !== 0)] *)
Definition pixelPassNeeded (o : FilterOptions) : bool :=
  grayscale_of o
  || (contrast_of o !== #1)%js
  || (brightness_of o !== #0)%js.

(** The pixel work of [applyFilters] between [getImageData] and
    [toDataURL]: the guarded grayscale / contrast / brightness loop, then
    the sharpening block, whose body holds comments only. *)
Definition applyFiltersData (data : list Z) (o : FilterOptions) : list Z :=
  let data1 :=
    if pixelPassNeeded o then
      filterLoop (grayscale_of o) (contrast_of o) (brightness_of o)
                 (contrastFactor (contrast_of o)) data
    else data in
  (* ctx.putImageData(imageData, 0, 0); *)
  if (#0 <? sharpen_of o)%js then
    (* if (sharpen > 0) { } : no statement in the block *)
    data1
  else data1.

(** *** Image values handed between the canvas and the filters *)

Record ImageData := {
  width : Z;
  height : Z;
  data : list Z
}.

(** The result of [canvas.toDataURL('image/jpeg', quality)]: the JPEG
    encoding of the canvas content.  The encoding is lossy, so the value
    is kept symbolic and decoding is left to the browser (below). *)
Inductive DataURL :=
| JpegDataURL (quality : number) (image : ImageData).

(** What loading a data URL into an [Image] and reading it back through a
    canvas gives: the decoded pixels, or [None] when the load fails, in
    which case [onload] never fires. *)
Record Browser := {
  loadImage : DataURL -> option ImageData
}.

(** [applyFilters(imageDataUrl, options)].  The promise resolves from
    [img.onload] only: [None] stands for a promise that never settles. *)
Definition applyFilters (browser : Browser) (imageDataUrl : DataURL)
    (options : FilterOptions) : option DataURL :=
  match loadImage browser imageDataUrl with
  | Some img =>
      let imageData :=
        {| width := width img;
           height := height img;
           data := applyFiltersData (data img) options |} in
      Some (JpegDataURL (decimal 98 100) imageData)
  | None => None
  end.

(** *** [isLowLight] *)

(** A video element as the sampler sees it: its intrinsic size and what
    the 2D context reads back after the region [(sx, sy, sw, sh)] of its
    current frame is drawn on a fresh [sw] x [sh] canvas. *)
Record HTMLVideoElement := {
  videoWidth : Z;
  videoHeight : Z;
  frameRegion : number -> number -> Z -> Z -> list Z
}.

(** [const size = 50;] *)
Definition size : Z := 50.

(** [for (let i = 0; i < data.length; i += 4) totalBrightness += (...)] *)
Fixpoint brightnessLoop (totalBrightness : number) (data : list Z) : number :=
  match data with
  | [] => totalBrightness
  | r :: g :: b :: _ :: rest =>
      brightnessLoop (totalBrightness + luminance #r #g #b)%js rest
  | [r; g; b] =>
      (totalBrightness + luminance #r #g #b)%js
  | [r; g] =>
      (totalBrightness + luminance #r #g (ToNumber None))%js
  | [r] =>
      (totalBrightness + luminance #r (ToNumber None) (ToNumber None))%js
  end.

(** [const avgBrightness = totalBrightness / (data.length / 4);] *)
Definition avgBrightness (data : list Z) : number :=
  (brightnessLoop #0 data / (#(Z.of_nat (List.length data)) / #4))%js.

(** The centre window: [drawImage(video, sx, sy, size, size, 0, 0, size, size)]
    followed by [getImageData(0, 0, size, size)]. *)
Definition centerWindow (video : HTMLVideoElement) : list Z :=
  let sx := ((#(videoWidth video) - #size) / #2)%js in
  let sy := ((#(videoHeight video) - #size) / #2)%js in
  frameRegion video sx sy size size.

Definition isLowLight (video : option HTMLVideoElement) : bool :=
  match video with
  | None => false                                   (* if (!video) return false; *)
  | Some v => (avgBrightness (centerWindow v) <? #80)%js
  end.

End ImageUtils.

(* ================================================================== *)
(** ** [CameraView.jsx]: the capture sequence *)

Module CameraView.
Import JS ImageUtils.

Inductive FacingMode := user | environment.

Inductive Exn :=
| TypeError            (* a property of [null] or [undefined] was used *)
| OverconstrainedError (* the device rejected [applyConstraints] *).

Inductive Constraint :=
| Torch (on : bool).

(** A video track of the stream: whether the device accepts a constraint. *)
Record MediaStreamTrack := {
  accepts : Constraint -> bool
}.

Record MediaStream := {
  getVideoTracks : list MediaStreamTrack
}.

(** The hidden canvas the frame is grabbed into; [getContext('2d')]
    returns [null] when no 2D context can be had for it. *)
Record HTMLCanvasElement := {
  has2dContext : bool
}.

(** What one render of the component closes over. *)
Record Component := {
  videoRef : option HTMLVideoElement;
  canvasRef : option HTMLCanvasElement;
  stream : option MediaStream;
  torchSupported : bool;
  facingMode : FacingMode;
  browser : Browser
}.

Inductive Event :=
| AppliedConstraint (c : Constraint) (accepted : bool)
| Waited (ms : Z)                       (* await new Promise(r => setTimeout(r, ms)) *)
| TimerSet (ms : Z)                     (* setTimeout(() => setIsFlashing(false), ms) *)
| ConsoleError (msg : string) (e : Exn).

(** The state the sequence acts on: the torch of the device, the React
    state it sets, and the trace of what it did (latest event first). *)
Record World := {
  torch : bool;
  processing : bool;
  isFlashing : bool;
  capturedImage : option DataURL;
  error : option string;
  trace : list Event
}.

(** *** A state monad with exceptions and pending promises *)

Inductive Outcome (A : Type) :=
| Returned (a : A)
| Thrown (e : Exn)
| Pending.            (* an awaited promise never settles *)
Arguments Returned {A} a.
Arguments Thrown {A} e.
Arguments Pending {A}.

Definition M (A : Type) : Type := World -> Outcome A * World.

Definition ret {A} (a : A) : M A := fun w => (Returned a, w).
Definition throw {A} (e : Exn) : M A := fun w => (Thrown e, w).

Definition bind {A B} (m : M A) (f : A -> M B) : M B :=
  fun w =>
    match m w with
    | (Returned a, w') => f a w'
    | (Thrown e, w') => (Thrown e, w')
    | (Pending, w') => (Pending, w')
    end.

(** [try { m } catch (e) { h e }] *)
Definition tryCatch {A} (m : M A) (h : Exn -> M A) : M A :=
  fun w =>
    match m w with
    | (Thrown e, w') => h e w'
    | r => r
    end.

(** [try { m } finally { fin }] *)
Definition tryFinally {A} (m : M A) (fin : M unit) : M A :=
  fun w =>
    match m w with
    | (Pending, w') => (Pending, w')
    | (r, w') =>
        match fin w' with
        | (Returned _, w'') => (r, w'')
        | (Thrown e, w'') => (Thrown e, w'')
        | (Pending, w'') => (Pending, w'')
        end
    end.

(** [await p] for a promise that resolves with [a] or never settles. *)
Definition await {A} (p : option A) : M A :=
  match p with
  | Some a => ret a
  | None => fun w => (Pending, w)
  end.

Notation "x <- m ;; k" := (bind m (fun x => k))
  (at level 61, m at next level, right associativity).
Notation "m ;; k" := (bind m (fun _ => k))
  (at level 61, right associativity).

(** *** Primitive actions *)

Definition record (ev : Event) (w : World) : World :=
  {| torch := torch w; processing := processing w; isFlashing := isFlashing w;
     capturedImage := capturedImage w; error := error w;
     trace := ev :: trace w |}.

Definition setProcessing (b : bool) : M unit :=
  fun w =>
    (Returned tt,
     {| torch := torch w; processing := b; isFlashing := isFlashing w;
        capturedImage := capturedImage w; error := error w; trace := trace w |}).

Definition setIsFlashing (b : bool) : M unit :=
  fun w =>
    (Returned tt,
     {| torch := torch w; processing := processing w; isFlashing := b;
        capturedImage := capturedImage w; error := error w; trace := trace w |}).

Definition setCapturedImage (img : DataURL) : M unit :=
  fun w =>
    (Returned tt,
     {| torch := torch w; processing := processing w; isFlashing := isFlashing w;
        capturedImage := Some img; error := error w; trace := trace w |}).

(** [await new Promise(r => setTimeout(r, ms))] *)
Definition delay (ms : Z) : M unit :=
  fun w => (Returned tt, record (Waited ms) w).

(** [setTimeout(callback, ms)] without waiting for it. *)
Definition setTimeout (ms : Z) : M unit :=
  fun w => (Returned tt, record (TimerSet ms) w).

Definition consoleError (msg : string) (e : Exn) : M unit :=
  fun w => (Returned tt, record (ConsoleError msg e) w).

(** [await track.applyConstraints({ advanced: [c] })]: an accepted torch
    constraint switches the torch, a rejected one throws. *)
Definition applyConstraints (track : MediaStreamTrack) (c : Constraint) : M unit :=
  fun w =>
    if accepts track c then
      match c with
      | Torch on =>
          (Returned tt,
           {| torch := on; processing := processing w; isFlashing := isFlashing w;
              capturedImage := capturedImage w; error := error w;
              trace := AppliedConstraint c true :: trace w |})
      end
    else (Thrown OverconstrainedError, record (AppliedConstraint c false) w).

(** *** [setTorch] *)
Definition setTorch (c : Component) (on : bool) : M unit :=
  match stream c with
  | Some s =>
      if torchSupported c then
        tryCatch
          (match getVideoTracks s with
           | track :: _ => applyConstraints track (Torch on)
           | [] => throw TypeError      (* track is undefined *)
           end)
          (fun e => consoleError "Failed to set torch:"%string e)
      else ret tt
  | None => ret tt
  end.

(** *** The frame grab *)

(** Groups of four bytes, one per pixel. *)
Fixpoint pixelsOf (bytes : list Z) : list (list Z) :=
  match bytes with
  | r :: g :: b :: a :: rest => [r; g; b; a] :: pixelsOf rest
  | [] => []
  | short => [short]
  end.

Fixpoint rowsOf (h : nat) (rowBytes : nat) (bytes : list Z) : list (list Z) :=
  match h with
  | O => []
  | S h' => firstn rowBytes bytes :: rowsOf h' rowBytes (skipn rowBytes bytes)
  end.

(** [context.translate(canvas.width, 0); context.scale(-1, 1);] before the
    draw: every row comes out with its pixels in reverse order. *)
Definition mirror (w h : Z) (bytes : list Z) : list Z :=
  List.concat (map (fun row => List.concat (rev (pixelsOf row)))
              (rowsOf (Z.to_nat h) (Z.to_nat (4 * w)) bytes)).

(** From [canvas.width = video.videoWidth] to [context.drawImage(...)]:
    the canvas takes the size of the video and the whole frame is drawn on
    it, mirrored for the front camera.  A [null] context makes the first
    use of [context] throw. *)
Definition grabFrame (c : Component) (video : HTMLVideoElement)
    (canvas : HTMLCanvasElement) : M ImageData :=
  if has2dContext canvas then
    let w := videoWidth video in
    let h := videoHeight video in
    let frame := frameRegion video #0%js #0%js w h in
    ret {| width := w; height := h;
           data := match facingMode c with
                   | user => mirror w h frame
                   | environment => frame
                   end |}
  else throw TypeError.

(** *** [captureStrategy] *)

(** The copies of [captureStrategy] that wait for the focus to settle
    differ in the length of that wait, the JPEG quality and the filter
    options only.  (One more copy requests a focus lock instead of
    waiting; its guard, its torch handling and its [try] / [catch] /
    [finally] are the same.) *)
Record Variant := {
  focusSettle : Z;
  jpegQuality : number;
  filterOptions : FilterOptions
}.

(** [src/components/CameraView.jsx] *)
Definition current : Variant :=
  {| focusSettle := 300;
     jpegQuality := decimal 98 100;
     filterOptions :=
       {| grayscale := Some true;
          contrast := Some (decimal 12 10);
          brightness := Some #20%js;
          sharpen := Some (decimal 7 10) |} |}.

(** The two earlier copies of the component. *)
Definition earlier : Variant :=
  {| focusSettle := 400;
     jpegQuality := decimal 95 100;
     filterOptions :=
       {| grayscale := Some true;
          contrast := Some (decimal 11 10);
          brightness := Some #0%js;
          sharpen := Some (decimal 5 10) |} |}.

Definition captureStrategy (v : Variant) (c : Component) : M unit :=
  match videoRef c, canvasRef c with
  | Some video, Some canvas =>
      setProcessing true ;;
      tryFinally
        (tryCatch
           (let lowLight := isLowLight (Some video) in
            (if lowLight && torchSupported c then
               setTorch c true ;;
               delay 300
             else ret tt) ;;
            delay (focusSettle v) ;;
            setIsFlashing true ;;
            setTimeout 300 ;;
            frame <- grabFrame c video canvas ;;
            (if lowLight && torchSupported c then setTorch c false else ret tt) ;;
            let rawImageDataUrl := JpegDataURL (jpegQuality v) frame in
            processedImage <-
              await (applyFilters (browser c) rawImageDataUrl (filterOptions v)) ;;
            setCapturedImage processedImage)
           (fun e => consoleError "Capture failed:"%string e))
        (setProcessing false)
  | _, _ => ret tt       (* if (!videoRef.current || !canvasRef.current) return; *)
  end.

End CameraView.

(* ================================================================== *)
(** ** Vocabulary of the statements *)

Module Spec.
Import JS ImageUtils CameraView.

(** *** Pixels and option records *)

Definition pixel : Type := (Z * Z * Z * Z)%type.

(** The complete RGBA groups of a buffer, in order. *)
Fixpoint rgbaPixels (data : list Z) : list pixel :=
  match data with
  | r :: g :: b :: a :: rest => (r, g, b, a) :: rgbaPixels rest
  | _ => []
  end.

(** [{grayscale: false, contrast: 1.0, brightness: 0, sharpen: 0}] *)
Definition neutral : FilterOptions :=
  {| grayscale := Some false; contrast := Some #1%js;
     brightness := Some #0%js; sharpen := Some #0%js |}.

(** [{}] *)
Definition noOptions : FilterOptions :=
  {| grayscale := None; contrast := None; brightness := None; sharpen := None |}.

(** [{grayscale: true, contrast: 1.0, brightness: 0, sharpen: 0}] *)
Definition grayscaleOnly : FilterOptions :=
  {| grayscale := Some true; contrast := Some #1%js;
     brightness := Some #0%js; sharpen := Some #0%js |}.

(** [{...o, sharpen: s}] *)
Definition withSharpen (o : FilterOptions) (s : option number) : FilterOptions :=
  {| grayscale := grayscale o; contrast := contrast o;
     brightness := brightness o; sharpen := s |}.

(** *** The pipeline with the contrast stage taken out

    Grayscale, brightness and the clamped store, in the same order and
    under the guard that remains without the contrast test. *)
Definition filterPixelWithoutContrast (grayscale : bool) (brightness : number)
    (r g b : option Z) : Z * Z * Z :=
  let p := (ToNumber r, ToNumber g, ToNumber b) in
  let p := grayscaleStage grayscale p in
  let '(r', g', b') := brightnessStage brightness p in
  (store r', store g', store b').

Definition applyFiltersWithoutContrast (data : list Z) (o : FilterOptions) : list Z :=
  if grayscale_of o || (brightness_of o !== #0)%js then
    forEachPixel (filterPixelWithoutContrast (grayscale_of o) (brightness_of o)) data
  else data.

(** *** Black and white pixels *)

Definition isBlack (p : pixel) : Prop :=
  let '(r, g, b, _) := p in r = 0 /\ g = 0 /\ b = 0.

Definition isWhite (p : pixel) : Prop :=
  let '(r, g, b, _) := p in r = 255 /\ g = 255 /\ b = 255.

(** [{grayscale: false, contrast: 2.0, brightness: 0, sharpen: 0}] *)
Definition contrastTwo : FilterOptions :=
  {| grayscale := Some false; contrast := Some #2%js;
     brightness := Some #0%js; sharpen := Some #0%js |}.

(** *** Observations on a run of the capture sequence *)

(** The torch settings the device accepted, latest first. *)
Fixpoint torchCommands (t : list Event) : list bool :=
  match t with
  | AppliedConstraint (Torch on) true :: t' => on :: torchCommands t'
  | _ :: t' => torchCommands t'
  | [] => []
  end.

(** A failure reaches the caller or the user: the call throws, the error
    state of the component changes, or something is added to the trace
    (a console message included). *)
Definition reportsError (before : World) (r : Outcome unit * World) : Prop :=
  (exists e, fst r = Thrown e)
  \/ error (snd r) <> error before
  \/ trace (snd r) <> trace before.

(** *** Concrete sources, devices and components *)


(** An opaque frame of one colour. *)
Definition uniform (v : Z) (w h : Z) : list Z :=
  List.concat (repeat [v; v; v; 255] (Z.to_nat (w * h))).


(** A small (64 x 56) source showing one colour. *)
Definition uniformVideo (v : Z) : HTMLVideoElement :=
  {| videoWidth := 64; videoHeight := 56;
     frameRegion := fun _ _ w h => uniform v w h |}.

(** A browser that decodes a JPEG to the very pixels that were encoded,
    and fails to load the URL of an empty canvas. *)
Definition plainBrowser : Browser :=
  {| loadImage := fun url =>
       match url with
       | JpegDataURL _ img =>
           if (0 <? width img) && (0 <? height img) then Some img else None
       end |}.

(** A stream whose only track accepts every constraint. *)
Definition willingStream : MediaStream :=
  {| getVideoTracks := [ {| accepts := fun _ => true |} ] |}.

Definition component (video : option HTMLVideoElement)
    (canvas : option HTMLCanvasElement) : Component :=
  {| videoRef := video; canvasRef := canvas;
     stream := Some willingStream; torchSupported := true;
     facingMode := environment; browser := plainBrowser |}.

Definition goodCanvas : HTMLCanvasElement := {| has2dContext := true |}.
Definition contextlessCanvas : HTMLCanvasElement := {| has2dContext := false |}.

(** The component at rest: torch off, nothing in progress. *)
Definition idle : World :=
  {| torch := false; processing := false; isFlashing := false;
     capturedImage := None; error := None; trace := [] |}.

(** A dark scene, and a hidden canvas that yields no 2D context. *)
Definition darkSceneNoContext : Component :=
  component (Some (uniformVideo 0)) (Some contextlessCanvas).

(** A dark scene and a working canvas. *)
Definition darkScene : Component :=
  component (Some (uniformVideo 0)) (Some goodCanvas).


(** A capture pressed while the video element is not mounted. *)
Definition noVideoCapture : Component :=
  component None (Some goodCanvas).


End Spec.

(* ================================================================== *)
(** ** Vocabulary of the further properties of the filters *)

Module Pixels.
Import JS ImageUtils CameraView Spec.

(** A value an 8-bit channel can hold. *)
Definition isByte (v : Z) : Prop := 0 <= v <= 255.

(** Saturation of an integer to the range of a byte. *)
Definition saturate (v : Z) : Z := Z.max 0 (Z.min 255 v).

(** [{grayscale: false, contrast: 1.0, brightness: k, sharpen: 0}] *)
Definition brightnessOnly (k : Z) : FilterOptions :=
  {| grayscale := Some false; contrast := Some #1%js;
     brightness := Some #k%js; sharpen := Some #0%js |}.

(** The three colour channels of a pixel agree. *)
Definition isGrey (p : pixel) : Prop :=
  let '(r, g, b, _) := p in r = g /\ g = b.

(** The pixel with its colour channels brightened by [k], saturating. *)
Definition brightened (k : Z) (p : pixel) : pixel :=
  let '(r, g, b, a) := p in
  (saturate (r + k), saturate (g + k), saturate (b + k), a).

(** The level the filters give to an opaque grey pixel of level [y]. *)
Definition greyResponse (o : FilterOptions) (y : Z) : Z :=
  match applyFiltersData [y; y; y; 255] o with
  | x :: _ => x
  | [] => 0
  end.

(** The shape of the number an integer of at most nine bits denotes. *)
Definition smallShape (z : Z) : bool :=
  match #z%js with
  | S754_zero s => (z =? 0) && negb s
  | S754_finite s m e =>
      Bool.eqb s (z <? 0) && (-52 <=? e) && (e <=? -44)
      && (Z.pos m =? Z.abs z * 2 ^ (- e))
  | _ => false
  end.

End Pixels.

(* ================================================================== *)
(** ** Exact values, for the accuracy of the luminance *)

Module Exact.
Import JS ImageUtils Spec Pixels.

(** The value of a number counted in units of [2^-1074], the spacing of
    the smallest doubles: every finite double is a whole number of
    them. *)
Definition scaled (x : number) : Z :=
  match x with
  | S754_finite s m e => (if s then -1 else 1) * (Z.pos m * 2 ^ (e + 1074))
  | _ => 0
  end.

(** Zero, or a positive normal number: a mantissa of exactly 53 bits and
    an exponent within the range of the format. *)
Definition regular (x : number) : Prop :=
  match x with
  | S754_zero s => s = false
  | S754_finite s m e =>
      s = false /\ 2 ^ 52 <= Z.pos m < 2 ^ 53 /\ -1074 <= e <= 971
  | _ => False
  end.

(** The luminance [0.299 R + 0.587 G + 0.114 B] of a pixel, exactly, in
    thousandths. *)
Definition luminanceThousandths (p : pixel) : Z :=
  let '(r, g, b, _) := p in 299 * r + 587 * g + 114 * b.

(** The sum of the luminance over the pixels of a window, exactly, in
    thousandths. *)
Definition totalThousandths (px : list pixel) : Z :=
  fold_right (fun p t => luminanceThousandths p + t) 0 px.

(** The product of a weight [c] of the formula, meant to be [w / 1000],
    with the byte [v]: a regular number that is a whole number of
    [2^-56] and within [2^-45] of [w * v / 1000]. *)
Definition productShape (c : number) (w : Z) (v : Z) : bool :=
  match (c * #v)%js with
  | S754_zero s => negb s && (v =? 0)
  | S754_finite s m e =>
      negb s && (2 ^ 52 <=? Z.pos m) && (Z.pos m <? 2 ^ 53)
      && (-56 <=? e) && (e <=? 0)
      && (Z.abs (1000 * (Z.pos m * 2 ^ (e + 56)) - w * v * 2 ^ 56) <=? 1000 * 2 ^ 11)
  | _ => false
  end.

(** Every colour channel of [out] is one and the same byte, a nearest
    integer of the luminance of [inp] (at most half a unit away), and
    the alpha of [out] is the alpha of [inp]. *)
Definition nearestLuminance (inp out : pixel) : Prop :=
  let '(r', g', b', a') := out in
  let '(_, _, _, a) := inp in
  r' = g' /\ g' = b'
  /\ Z.abs (1000 * r' - luminanceThousandths inp) <= 500
  /\ a' = a.

(** [x] is a regular number within [2^-k] of the fraction [num / den],
    for a positive [den]: [|x - num / den| <= 2^-k], with both sides
    multiplied by [den * 2^1074]. *)
Definition within (k : Z) (x : number) (num den : Z) : Prop :=
  regular x /\ Z.abs (den * scaled x - num * 2 ^ 1074) <= den * 2 ^ (1074 - k).

(** A source whose every pixel has the colour [(r, g, b)]. *)
Definition plainVideo (r g b : Z) : HTMLVideoElement :=
  {| videoWidth := 64; videoHeight := 56;
     frameRegion := fun _ _ w h =>
       List.concat (repeat [r; g; b; 255] (Z.to_nat (w * h))) |}.

End Exact.

(* ================================================================== *)
(** ** Vocabulary of the further properties of the capture sequence *)

Module Runs.
Import JS ImageUtils CameraView Spec.

(** The image the grab leaves on the canvas: the whole frame at the size
    of the video, mirrored for the front camera. *)
Definition rawFrame (c : Component) (video : HTMLVideoElement) : ImageData :=
  {| width := videoWidth video;
     height := videoHeight video;
     data := match facingMode c with
             | user =>
                 mirror (videoWidth video) (videoHeight video)
                   (frameRegion video #0%js #0%js (videoWidth video) (videoHeight video))
             | environment =>
                 frameRegion video #0%js #0%js (videoWidth video) (videoHeight video)
             end |}.

(** The result of the filters on a decoded image, encoded again. *)
Definition processed (o : FilterOptions) (img : ImageData) : DataURL :=
  JpegDataURL (decimal 98 100)
    {| width := width img; height := height img;
       data := applyFiltersData (data img) o |}.

(** The time spent in awaited delays, in milliseconds. *)
Fixpoint totalWait (t : list Event) : Z :=
  match t with
  | Waited ms :: t' => ms + totalWait t'
  | _ :: t' => totalWait t'
  | [] => 0
  end.

(** The number of [applyConstraints] calls made, accepted or not. *)
Fixpoint constraintRequests (t : list Event) : nat :=
  match t with
  | AppliedConstraint _ _ :: t' => S (constraintRequests t')
  | _ :: t' => constraintRequests t'
  | [] => O
  end.

(** The console messages, latest first. *)
Fixpoint consoleErrors (t : list Event) : list (string * Exn) :=
  match t with
  | ConsoleError msg e :: t' => (msg, e) :: consoleErrors t'
  | _ :: t' => consoleErrors t'
  | [] => []
  end.

(** A stream whose only track rejects every constraint. *)
Definition stubbornStream : MediaStream :=
  {| getVideoTracks := [ {| accepts := fun _ => false |} ] |}.

(** A dark scene in front of a device that advertises a torch and then
    rejects every request. *)
Definition darkSceneStubbornDevice : Component :=
  {| videoRef := Some (uniformVideo 0); canvasRef := Some goodCanvas;
     stream := Some stubbornStream; torchSupported := true;
     facingMode := user; browser := plainBrowser |}.

(** A dark scene in front of a device without torch. *)
Definition darkSceneNoTorch : Component :=
  {| videoRef := Some (uniformVideo 0); canvasRef := Some goodCanvas;
     stream := Some willingStream; torchSupported := false;
     facingMode := environment; browser := plainBrowser |}.

(** A browser in which no image ever loads. *)
Definition deafBrowser : Browser := {| loadImage := fun _ => None |}.

Definition daylightDeafBrowser : Component :=
  {| videoRef := Some (uniformVideo 255); canvasRef := Some goodCanvas;
     stream := Some willingStream; torchSupported := true;
     facingMode := environment; browser := deafBrowser |}.

(** A 2 x 2 source whose four pixels all differ. *)
Definition markedVideo : HTMLVideoElement :=
  {| videoWidth := 2; videoHeight := 2;
     frameRegion := fun _ _ _ _ =>
       [1; 2; 3; 255; 4; 5; 6; 255; 7; 8; 9; 255; 10; 11; 12; 255] |}.

(** The front camera in front of it. *)
Definition markedFrontCapture : Component :=
  {| videoRef := Some markedVideo; canvasRef := Some goodCanvas;
     stream := None; torchSupported := false;
     facingMode := user; browser := plainBrowser |}.

End Runs.

(* ================================================================== *)
(** ** [CameraView.jsx]: starting the camera, zoom and tap to focus *)

Module Session.
Import JS ImageUtils CameraView.

(** *** The device as the handlers see it *)

(** [{min, max}] of a ranged capability. *)
Record Range := {
  min : number;
  max : number
}.

(** What [track.getCapabilities()] returns; a field is [false] or [None]
    when the property is missing. *)
Record MediaTrackCapabilities := {
  capTorch : bool;
  capZoom : option Range;
  capFocusMode : option (list string);
  capFocusDistance : option Range
}.

(** [{}] *)
Definition noCapabilities : MediaTrackCapabilities :=
  {| capTorch := false; capZoom := None; capFocusMode := None;
        capFocusDistance := None |}.

(** One member of the [advanced] list of a constraint set. *)
Inductive ConstraintSet :=
| ZoomTo (z : number)
| FocusMode (mode : string)
| FocusDistance (d : number)
| TorchTo (on : bool).

(** A video track ([MediaStreamTrack]): a method is [None] where the
    browser does not provide it; [constraintsMethod] is
    [track.applyConstraints], telling whether the device accepts the
    [advanced] list it is called with. *)
Record Track := {
  trackId : Z;
  getCapabilities : option MediaTrackCapabilities;
  constraintsMethod : option (list ConstraintSet -> bool)
}.

(** A stream, as the list [getTracks()] / [getVideoTracks()] returns (no
    audio is requested). *)
Definition MediaStream : Type := list Track.

(** [navigator.mediaDevices.getUserMedia] for a facing mode: a stream, or
    the exception it rejects with. *)
Inductive Grant :=
| Granted (s : MediaStream)
| Rejected (e : Exn).

Inductive Level := LevelLog | LevelWarn | LevelError.

Inductive Entry :=
| Stopped (id : Z)                                   (* track.stop() *)
| RequestedCamera (mode : FacingMode)                (* getUserMedia(constraints) *)
| Applied (id : Z) (advanced : list ConstraintSet) (accepted : bool)
| Slept (ms : Z)                                     (* await new Promise(r => setTimeout(r, ms)) *)
| Timer (ms : Z)                                     (* setTimeout(callback, ms) *)
| Console (level : Level) (msg : string) (e : option Exn).

(** The React state and the refs of the component, with the log of what
    the handlers did to the outside (latest entry first). *)
Record State := {

  stream : option MediaStream;
  streamRef : option MediaStream;
  srcObject : option MediaStream;
  error : option Exn;
  loading : bool;
  facingMode : FacingMode;
  torchSupported : bool;
  zoom : number;
  zoomRange : Range;
  showZoom : bool;
  focusPoint : option (number * number);
  log : list Entry
}.

(** [useState] / [useRef] initial values. *)
Definition initial : State :=
  {| stream := None; streamRef := None; srcObject := None;
     error := None; loading := true; facingMode := environment;
     torchSupported := false; zoom := #1%js;
     zoomRange := {| min := #1%js; max := #1%js |};
     showZoom := false; focusPoint := None; log := [] |}.

(** *** Actions on the state *)

Definition Act (A : Type) : Type := State -> Outcome A * State.

Definition pure {A} (a : A) : Act A := fun st => (Returned a, st).
Definition raise {A} (e : Exn) : Act A := fun st => (Thrown e, st).

Definition andThen {A B} (m : Act A) (f : A -> Act B) : Act B :=
  fun st =>
    match m st with
    | (Returned a, st') => f a st'
    | (Thrown e, st') => (Thrown e, st')
    | (Pending, st') => (Pending, st')
    end.

(** [try { m } catch (e) { h e }] *)
Definition attempt {A} (m : Act A) (h : Exn -> Act A) : Act A :=
  fun st =>
    match m st with
    | (Thrown e, st') => h e st'
    | r => r
    end.

(** The values the handler closes over. *)
Definition closure : Act State := fun st => (Returned st, st).

Notation "x <-- m ;;; k" := (andThen m (fun x => k))
  (at level 61, m at next level, right associativity).
Notation "m ;;; k" := (andThen m (fun _ => k))
  (at level 61, right associativity).

Definition setStream (v : option MediaStream) : Act unit :=
  fun st =>
    (Returned tt,
     {| stream := v;
        streamRef := streamRef st;
        srcObject := srcObject st;
        error := error st;
        loading := loading st;
        facingMode := facingMode st;
        torchSupported := torchSupported st;
        zoom := zoom st;
        zoomRange := zoomRange st;
        showZoom := showZoom st;
        focusPoint := focusPoint st;
        log := log st |}).

Definition setStreamRef (v : option MediaStream) : Act unit :=
  fun st =>
    (Returned tt,
     {| stream := stream st;
        streamRef := v;
        srcObject := srcObject st;
        error := error st;
        loading := loading st;
        facingMode := facingMode st;
        torchSupported := torchSupported st;
        zoom := zoom st;
        zoomRange := zoomRange st;
        showZoom := showZoom st;
        focusPoint := focusPoint st;
        log := log st |}).

Definition setSrcObject (v : option MediaStream) : Act unit :=
  fun st =>
    (Returned tt,
     {| stream := stream st;
        streamRef := streamRef st;
        srcObject := v;
        error := error st;
        loading := loading st;
        facingMode := facingMode st;
        torchSupported := torchSupported st;
        zoom := zoom st;
        zoomRange := zoomRange st;
        showZoom := showZoom st;
        focusPoint := focusPoint st;
        log := log st |}).

Definition setError (v : option Exn) : Act unit :=
  fun st =>
    (Returned tt,
     {| stream := stream st;
        streamRef := streamRef st;
        srcObject := srcObject st;
        error := v;
        loading := loading st;
        facingMode := facingMode st;
        torchSupported := torchSupported st;
        zoom := zoom st;
        zoomRange := zoomRange st;
        showZoom := showZoom st;
        focusPoint := focusPoint st;
        log := log st |}).

Definition setLoading (v : bool) : Act unit :=
  fun st =>
    (Returned tt,
     {| stream := stream st;
        streamRef := streamRef st;
        srcObject := srcObject st;
        error := error st;
        loading := v;
        facingMode := facingMode st;
        torchSupported := torchSupported st;
        zoom := zoom st;
        zoomRange := zoomRange st;
        showZoom := showZoom st;
        focusPoint := focusPoint st;
        log := log st |}).

Definition setFacingMode (v : FacingMode) : Act unit :=
  fun st =>
    (Returned tt,
     {| stream := stream st;
        streamRef := streamRef st;
        srcObject := srcObject st;
        error := error st;
        loading := loading st;
        facingMode := v;
        torchSupported := torchSupported st;
        zoom := zoom st;
        zoomRange := zoomRange st;
        showZoom := showZoom st;
        focusPoint := focusPoint st;
        log := log st |}).

Definition setTorchSupported (v : bool) : Act unit :=
  fun st =>
    (Returned tt,
     {| stream := stream st;
        streamRef := streamRef st;
        srcObject := srcObject st;
        error := error st;
        loading := loading st;
        facingMode := facingMode st;
        torchSupported := v;
        zoom := zoom st;
        zoomRange := zoomRange st;
        showZoom := showZoom st;
        focusPoint := focusPoint st;
        log := log st |}).

Definition setZoom (v : number) : Act unit :=
  fun st =>
    (Returned tt,
     {| stream := stream st;
        streamRef := streamRef st;
        srcObject := srcObject st;
        error := error st;
        loading := loading st;
        facingMode := facingMode st;
        torchSupported := torchSupported st;
        zoom := v;
        zoomRange := zoomRange st;
        showZoom := showZoom st;
        focusPoint := focusPoint st;
        log := log st |}).

Definition setZoomRange (v : Range) : Act unit :=
  fun st =>
    (Returned tt,
     {| stream := stream st;
        streamRef := streamRef st;
        srcObject := srcObject st;
        error := error st;
        loading := loading st;
        facingMode := facingMode st;
        torchSupported := torchSupported st;
        zoom := zoom st;
        zoomRange := v;
        showZoom := showZoom st;
        focusPoint := focusPoint st;
        log := log st |}).

Definition setShowZoom (v : bool) : Act unit :=
  fun st =>
    (Returned tt,
     {| stream := stream st;
        streamRef := streamRef st;
        srcObject := srcObject st;
        error := error st;
        loading := loading st;
        facingMode := facingMode st;
        torchSupported := torchSupported st;
        zoom := zoom st;
        zoomRange := zoomRange st;
        showZoom := v;
        focusPoint := focusPoint st;
        log := log st |}).

Definition setFocusPoint (v : option (number * number)) : Act unit :=
  fun st =>
    (Returned tt,
     {| stream := stream st;
        streamRef := streamRef st;
        srcObject := srcObject st;
        error := error st;
        loading := loading st;
        facingMode := facingMode st;
        torchSupported := torchSupported st;
        zoom := zoom st;
        zoomRange := zoomRange st;
        showZoom := showZoom st;
        focusPoint := v;
        log := log st |}).

(** One more entry in the log. *)
Definition emit (v : Entry) : Act unit :=
  fun st =>
    (Returned tt,
     {| stream := stream st;
        streamRef := streamRef st;
        srcObject := srcObject st;
        error := error st;
        loading := loading st;
        facingMode := facingMode st;
        torchSupported := torchSupported st;
        zoom := zoom st;
        zoomRange := zoomRange st;
        showZoom := showZoom st;
        focusPoint := focusPoint st;
        log := v :: log st |}).

(** *** Talking to the device *)

(** [await new Promise(r => setTimeout(r, ms))] *)
Definition sleep (ms : Z) : Act unit := emit (Slept ms).

(** [await track.applyConstraints({ advanced })]: a missing method makes
    the call itself throw, a rejection throws from the promise. *)
Definition apply (track : Track) (advanced : list ConstraintSet) : Act unit :=
  match constraintsMethod track with
  | Some accepts =>
      if accepts advanced then emit (Applied (trackId track) advanced true)
      else emit (Applied (trackId track) advanced false) ;;;
           raise OverconstrainedError
  | None => raise TypeError
  end.

(** [track.getCapabilities ? track.getCapabilities() : {}] *)
Definition capabilitiesOf (track : Track) : MediaTrackCapabilities :=
  match getCapabilities track with
  | Some c => c
  | None => noCapabilities
  end.

(** [stream.getTracks().forEach(track => track.stop())] *)
Fixpoint stopTracks (s : MediaStream) : Act unit :=
  match s with
  | [] => pure tt
  | track :: rest => emit (Stopped (trackId track)) ;;; stopTracks rest
  end.

(** [await navigator.mediaDevices.getUserMedia(constraints)] *)
Definition getUserMedia (navigator : FacingMode -> Grant) (mode : FacingMode)
    : Act MediaStream :=
  emit (RequestedCamera mode) ;;;
  match navigator mode with
  | Granted s => pure s
  | Rejected e => raise e
  end.

(** *** [switchCamera] *)
Definition switchCamera : Act unit :=
  st <-- closure ;;;
  setFacingMode (match facingMode st with
                 | user => environment
                 | environment => user
                 end).

(** *** [startCamera] ([src/components/CameraView.jsx])

    [videoMounted] tells whether [videoRef.current] is set. *)
Definition startCamera (navigator : FacingMode -> Grant) (videoMounted : bool)
    : Act unit :=
  setLoading true ;;;
  setError None ;;;
  setTorchSupported false ;;;
  setShowZoom false ;;;
  st <-- closure ;;;
  (match streamRef st with
   | Some old => stopTracks old ;;; setStreamRef None
   | None => pure tt
   end) ;;;
  attempt
    (newStream <-- getUserMedia navigator (facingMode st) ;;;
     setStream (Some newStream) ;;;
     setStreamRef (Some newStream) ;;;
     (if videoMounted then setSrcObject (Some newStream) else pure tt) ;;;
     match newStream with
     | [] => raise TypeError              (* track is undefined *)
     | track :: _ =>
         let capabilities := capabilitiesOf track in
         emit (Console LevelLog "Camera capabilities:" None) ;;;
         (if capTorch capabilities then setTorchSupported true else pure tt) ;;;
         (match capZoom capabilities with
          | Some z =>
              setZoomRange {| min := min z; max := max z |} ;;;
              let sweetSpotZoom := #1%js in
              match constraintsMethod track with
              | Some _ =>
                  attempt
                    (apply track [ZoomTo sweetSpotZoom] ;;;
                     setZoom sweetSpotZoom ;;;
                     setShowZoom true)
                    (fun e =>
                       emit (Console LevelWarn "Failed to apply zoom:" (Some e)) ;;;
                       setZoom #1%js)
              | None => pure tt
              end
          | None => pure tt
          end) ;;;
         setLoading false
     end)
    (fun err =>
       emit (Console LevelError "Error accessing camera:" (Some err)) ;;;
       setError (Some err) ;;;
       setLoading false).

(** [let initialZoom = 1.0; if (capabilities.zoom) initialZoom =
    Math.min(Math.max(1.5, capabilities.zoom.min), capabilities.zoom.max);]
    of the earlier copy of [startCamera]. *)
Definition initialZoom (capabilities : MediaTrackCapabilities) : number :=
  match capZoom capabilities with
  | Some z => Math_min (Math_max (decimal 15 10) (min z)) (max z)
  | None => #1%js
  end.

(** *** [handleZoomChange], with [newZoom = parseFloat(e.target.value)] *)
Definition handleZoomChange (newZoom : number) : Act unit :=
  setZoom newZoom ;;;
  st <-- closure ;;;
  match stream st with
  | Some s =>
      attempt
        (match s with
         | track :: _ => apply track [ZoomTo newZoom]
         | [] => raise TypeError          (* track is undefined *)
         end)
        (fun err => emit (Console LevelError "Zoom failed:" (Some err)))
  | None => pure tt
  end.

(** [capabilities.focusMode && capabilities.focusMode.includes(mode)] *)
Definition supportsFocusMode (capabilities : MediaTrackCapabilities) (mode : string)
    : bool :=
  match capFocusMode capabilities with
  | Some modes => existsb (String.eqb mode) modes
  | None => false
  end.

(** *** [handleTapToFocus]

    [clientX], [clientY] are the coordinates of the tap, [left], [top]
    those of the bounding rectangle of the wrapper. *)
Definition handleTapToFocus (clientX clientY left top : number) : Act unit :=
  let x := (clientX - left)%js in
  let y := (clientY - top)%js in
  setFocusPoint (Some (x, y)) ;;;
  emit (Timer 1000) ;;;
  st <-- closure ;;;
  match stream st with
  | Some s =>
      match s with
      | [] => raise TypeError             (* track.getCapabilities, before the try *)
      | track :: _ =>
          let capabilities := capabilitiesOf track in
          attempt
            (if supportsFocusMode capabilities "macro" then
               apply track [FocusMode "macro"] ;;;
               sleep 200 ;;;
               apply track [FocusMode "continuous-picture"]
             else if showZoom st then
               let currentZoom := zoom st in
               let wiggleZoom :=
                 Math_min (currentZoom + decimal 1 10)%js (max (zoomRange st)) in
               apply track [ZoomTo wiggleZoom] ;;;
               sleep 100 ;;;
               apply track [ZoomTo currentZoom]
             else
               apply track [FocusMode "continuous-picture"])
            (fun err =>
               emit (Console LevelWarn "Focus trigger failed:" (Some err)))
      end
  | None => pure tt
  end.

(** *** The focus lock of one copy of [captureStrategy]

    The list built before [applyConstraints]: [single-shot] if supported,
    else [manual] if supported, then a focus distance of 5 cm clamped to
    the range of the device. *)
Definition lockFocusConstraints (capabilities : MediaTrackCapabilities)
    : list ConstraintSet :=
  (if supportsFocusMode capabilities "single-shot" then [FocusMode "single-shot"]
   else if supportsFocusMode capabilities "manual" then [FocusMode "manual"]
   else [])
  ++ match capFocusDistance capabilities with
     | Some fd =>
         [FocusDistance (Math_min (Math_max (decimal 5 100) (min fd)) (max fd))]
     | None => []
     end.

(** *** Observations on the log *)

(** The [applyConstraints] calls that reached the device, latest first. *)
Fixpoint requests (l : list Entry) : list (list ConstraintSet * bool) :=
  match l with
  | Applied _ advanced accepted :: l' => (advanced, accepted) :: requests l'
  | _ :: l' => requests l'
  | [] => []
  end.

(** What a tap may do to the outside, seen from the state it starts in:
    ask for macro or continuous-picture focus, ask for a zoom that is the
    current one or one not above the maximum, wait, set a timer, warn. *)
Definition tapEntryOk (st : State) (entry : Entry) : Prop :=
  match entry with
  | Applied _ [FocusMode mode] _ =>
      mode = "macro"%string \/ mode = "continuous-picture"%string
  | Applied _ [ZoomTo z] _ =>
      z = zoom st \/ (max (zoomRange st) <? z)%js = false
  | Applied _ _ _ => False
  | Stopped _ | RequestedCamera _ => False
  | Console level _ _ => level = LevelWarn
  | Slept _ | Timer _ => True
  end.

(** The zoom the wiggle of a tap goes to. *)
Definition wiggleZoomOf (st : State) : number :=
  Math_min (zoom st + decimal 1 10)%js (max (zoomRange st)).

(** *** From the session to a capture

    The values [captureStrategy] closes over, read off the state: the
    torch requests of the capture go to the tracks of the stream held. *)
Definition captureTrack (track : Track) : CameraView.MediaStreamTrack :=
  {| accepts := fun c =>
       match c, constraintsMethod track with
       | Torch on, Some method => method [TorchTo on]
       | Torch _, None => false
       end |}.

Definition componentOf (st : State) (video : option HTMLVideoElement)
    (canvas : option HTMLCanvasElement) (b : Browser) : Component :=
  {| videoRef := video;
     canvasRef := canvas;
     CameraView.stream :=
       match stream st with
       | Some s => Some {| getVideoTracks := map captureTrack s |}
       | None => None
       end;
     CameraView.torchSupported := torchSupported st;
     CameraView.facingMode := facingMode st;
     browser := b |}.

(** *** Concrete devices *)

(** A rear camera with torch, zoom from 1 to 8, manual and continuous
    focus, and a focus distance from 0.1 m to 10 m. *)
Definition fullCapabilities : MediaTrackCapabilities :=
  {| capTorch := true;
     capZoom := Some {| min := #1%js; max := #8%js |};
     capFocusMode := Some ["manual"; "continuous-picture"]%string;
     capFocusDistance := Some {| min := decimal 1 10; max := #10%js |} |}.

(** A telephoto camera whose zoom starts at 2. *)
Definition wideZoomCapabilities : MediaTrackCapabilities :=
  {| capTorch := false;
     capZoom := Some {| min := #2%js; max := #8%js |};
     capFocusMode := None;
     capFocusDistance := None |}.

(** A macro camera: single-shot and manual focus, and a focus distance
    from 0 to 2 m. *)
Definition macroCapabilities : MediaTrackCapabilities :=
  {| capTorch := false;
     capZoom := None;
     capFocusMode := Some ["single-shot"; "manual"]%string;
     capFocusDistance := Some {| min := #0%js; max := #2%js |} |}.

(** A track of that camera that accepts every constraint. *)
Definition rearTrack : Track :=
  {| trackId := 1;
     getCapabilities := Some fullCapabilities;
     constraintsMethod := Some (fun _ => true) |}.

(** A track with zoom whose device rejects every constraint. *)
Definition stubbornTrack : Track :=
  {| trackId := 2;
     getCapabilities := Some wideZoomCapabilities;
     constraintsMethod := Some (fun _ => false) |}.

(** A front camera track without [getCapabilities] and
    [applyConstraints]. *)
Definition bareTrack : Track :=
  {| trackId := 3; getCapabilities := None; constraintsMethod := None |}.

(** A browser that grants the rear camera and refuses the front one. *)
Definition rearOnly (mode : FacingMode) : Grant :=
  match mode with
  | environment => Granted [rearTrack]
  | user => Rejected OverconstrainedError
  end.

(** A browser that grants the stubborn camera. *)
Definition stubbornOnly (mode : FacingMode) : Grant := Granted [stubbornTrack].

(** The state once the rear camera runs with the zoom slider shown. *)
Definition running : State :=
  {| stream := Some [rearTrack]; streamRef := Some [rearTrack];
     srcObject := Some [rearTrack];
     error := None; loading := false; facingMode := environment;
     torchSupported := true; zoom := #2%js;
     zoomRange := {| min := #1%js; max := #8%js |};
     showZoom := true; focusPoint := None; log := [] |}.

(** The same, at the maximum zoom, on a device without macro focus that
    accepts every constraint. *)
Definition runningAtMaxZoom : State :=
  {| stream := Some [rearTrack]; streamRef := Some [rearTrack];
     srcObject := Some [rearTrack];
     error := None; loading := false; facingMode := environment;
     torchSupported := true; zoom := #8%js;
     zoomRange := {| min := #1%js; max := #8%js |};
     showZoom := true; focusPoint := None; log := [] |}.

End Session.

(* ================================================================== *)
(** ** Numbers and the byte store *)

Import JS ImageUtils CameraView Spec.

Lemma roundHalfEven_nonneg (m : positive) (e : Z) : 0 <= roundHalfEven m e.
Proof.
  unfold roundHalfEven.
  destruct e as [|p|p].
  - lia.
  - assert (0 <= 2 ^ Z.pos p) by (apply Z.pow_nonneg; lia). nia.
  - change (Z.pow_pos 2 p) with (2 ^ Z.pos p).
    assert (Hd : 0 < 2 ^ Z.pos p) by (apply Z.pow_pos_nonneg; lia).
    pose proof (Z.div_pos (Z.pos m) (2 ^ Z.pos p) ltac:(lia) Hd) as Hq.
    destruct (2 * (Z.pos m mod 2 ^ Z.pos p) ?= 2 ^ Z.pos p); try lia.
    destruct (Z.even _); lia.
Qed.

Lemma ToUint8Clamp_range (x : number) : 0 <= ToUint8Clamp x <= 255.
Proof.
  destruct x as [s|s| |s m e]; simpl; try lia.
  - destruct s; lia.
  - destruct s; [lia|]. pose proof (roundHalfEven_nonneg m e). lia.
Qed.

Lemma store_range (v : number) : 0 <= store v <= 255.
Proof. apply ToUint8Clamp_range. Qed.

Lemma add_NaN_r (x : number) : (x + NaN)%js = NaN.
Proof. destruct x; reflexivity. Qed.

Lemma luminance_NaN_b (r g : number) : luminance r g NaN = NaN.
Proof.
  unfold luminance.
  replace (c0_114 * NaN)%js with NaN by reflexivity.
  apply add_NaN_r.
Qed.

Lemma luminance_NaN_g (r b : number) : luminance r NaN b = NaN.
Proof.
  unfold luminance.
  replace (c0_587 * NaN)%js with NaN by reflexivity.
  rewrite add_NaN_r. reflexivity.
Qed.

(** Every byte value [y] is the stored luminance of the grey pixel
    [(y, y, y)]: the rounding error of the three products never reaches
    half a unit.  Checked on the 256 values. *)
Lemma store_luminance_grey (y : Z) :
  0 <= y <= 255 -> store (luminance #y #y #y)%js = y.
Proof.
  intros Hy.
  assert (Hall : forallb (fun n => let y := Z.of_nat n in
                            store (luminance #y #y #y)%js =? y)
                         (seq 0 256) = true) by (vm_compute; reflexivity).
  rewrite forallb_forall in Hall.
  specialize (Hall (Z.to_nat y)).
  rewrite Z2Nat.id in Hall by lia.
  apply Z.eqb_eq, Hall, in_seq. lia.
Qed.

(* ================================================================== *)
(** ** The loop over the buffer *)

(** Induction over a buffer, four bytes at a time. *)
Lemma quad_ind (P : list Z -> Prop) :
  P [] ->
  (forall r, P [r]) ->
  (forall r g, P [r; g]) ->
  (forall r g b, P [r; g; b]) ->
  (forall r g b a rest, P rest -> P (r :: g :: b :: a :: rest)) ->
  forall buf, P buf.
Proof.
  intros H0 H1 H2 H3 H4.
  fix IH 1.
  intros [|r [|g [|b [|a rest]]]].
  - exact H0.
  - apply H1.
  - apply H2.
  - apply H3.
  - apply H4, IH.
Qed.

Lemma forEachPixel_ext (f f' : option Z -> option Z -> option Z -> Z * Z * Z) :
  (forall r g b, f r g b = f' r g b) ->
  forall buf, forEachPixel f buf = forEachPixel f' buf.
Proof.
  intros Hext.
  induction buf as [|r|r g|r g b|r g b a rest IH] using quad_ind;
    simpl; rewrite ?Hext, ?IH; reflexivity.
Qed.

Lemma forEachPixel_length body (buf : list Z) :
  List.length (forEachPixel body buf) = List.length buf.
Proof.
  induction buf as [|r|r g|r g b|r g b a rest IH] using quad_ind; simpl.
  - reflexivity.
  - destruct (body _ _ _) as [[? ?] ?]; reflexivity.
  - destruct (body _ _ _) as [[? ?] ?]; reflexivity.
  - destruct (body _ _ _) as [[? ?] ?]; reflexivity.
  - destruct (body _ _ _) as [[? ?] ?]; simpl. now rewrite IH.
Qed.

(** A body that reproduces its own output makes the loop idempotent. *)
Lemma forEachPixel_idempotent body :
  (forall r g b,
      let '(r', g', b') := body (Some r) (Some g) (Some b) in
      body (Some r') (Some g') (Some b') = (r', g', b')) ->
  (forall r g,
      let '(r', g', _) := body (Some r) (Some g) None in
      exists x, body (Some r') (Some g') None = (r', g', x)) ->
  (forall r,
      let '(r', _, _) := body (Some r) None None in
      exists x y, body (Some r') None None = (r', x, y)) ->
  forall buf, forEachPixel body (forEachPixel body buf) = forEachPixel body buf.
Proof.
  intros H3 H2 H1.
  induction buf as [|r|r g|r g b|r g b a rest IH] using quad_ind;
    cbn [forEachPixel].
  - reflexivity.
  - specialize (H1 r). destruct (body (Some r) None None) as [[r' g'] b'].
    destruct H1 as (x & y & E). cbn [forEachPixel]. now rewrite E.
  - specialize (H2 r g). destruct (body (Some r) (Some g) None) as [[r' g'] b'].
    destruct H2 as (x & E). cbn [forEachPixel]. now rewrite E.
  - specialize (H3 r g b).
    destruct (body (Some r) (Some g) (Some b)) as [[r' g'] b'].
    cbn [forEachPixel]. now rewrite H3.
  - specialize (H3 r g b).
    destruct (body (Some r) (Some g) (Some b)) as [[r' g'] b'].
    cbn [forEachPixel]. now rewrite H3, IH.
Qed.

(* ================================================================== *)
(** ** The stages of [applyFilters] *)

Lemma contrastStage_one (factor : number) (p : rgb) :
  contrastStage #1%js factor p = p.
Proof. destruct p as [[r g] b]. reflexivity. Qed.

Lemma brightnessStage_zero (p : rgb) : brightnessStage #0%js p = p.
Proof. destruct p as [[r g] b]. reflexivity. Qed.

Lemma filterPixel_contrast_one grayscale brightness factor r g b :
  filterPixel grayscale #1%js brightness factor r g b
  = filterPixelWithoutContrast grayscale brightness r g b.
Proof.
  unfold filterPixel, filterPixelWithoutContrast.
  now rewrite contrastStage_one.
Qed.

(** With contrast 1.0 and brightness 0 the body stores the luminance in
    the three channels, or the channel itself without grayscale. *)
Lemma filterPixel_grayscale_only factor r g b :
  filterPixel true #1%js #0%js factor r g b
  = (let y := store (luminance (ToNumber r) (ToNumber g) (ToNumber b)) in (y, y, y)).
Proof.
  unfold filterPixel.
  rewrite contrastStage_one, brightnessStage_zero. reflexivity.
Qed.

Lemma store_NaN : store NaN = 0.
Proof. reflexivity. Qed.

(** The sharpening block has no statement: whatever the weight, the result
    is the buffer the first block left. *)
Lemma applyFiltersData_unfold (buf : list Z) (o : FilterOptions) :
  applyFiltersData buf o
  = if pixelPassNeeded o then
      filterLoop (grayscale_of o) (contrast_of o) (brightness_of o)
                 (contrastFactor (contrast_of o)) buf
    else buf.
Proof.
  unfold applyFiltersData.
  destruct (#0 <? sharpen_of o)%js; reflexivity.
Qed.

Lemma applyFiltersData_withSharpen (buf : list Z) (o : FilterOptions)
    (s s' : option number) :
  applyFiltersData buf (withSharpen o s) = applyFiltersData buf (withSharpen o s').
Proof. now rewrite !applyFiltersData_unfold. Qed.

Lemma grayscale_loop_idempotent factor (buf : list Z) :
  let body := filterPixel true #1%js #0%js factor in
  forEachPixel body (forEachPixel body buf) = forEachPixel body buf.
Proof.
  intros body. subst body.
  apply forEachPixel_idempotent.
  - intros r g b. rewrite filterPixel_grayscale_only. cbv beta iota zeta.
    rewrite filterPixel_grayscale_only. cbv beta iota zeta. cbn [ToNumber].
    rewrite store_luminance_grey by apply store_range. reflexivity.
  - intros r g. rewrite filterPixel_grayscale_only. cbv beta iota zeta.
    cbn [ToNumber]. rewrite luminance_NaN_b, store_NaN.
    rewrite filterPixel_grayscale_only. cbv beta iota zeta. cbn [ToNumber].
    rewrite luminance_NaN_b, store_NaN. now exists 0.
  - intros r. rewrite filterPixel_grayscale_only. cbv beta iota zeta.
    cbn [ToNumber]. rewrite luminance_NaN_b, store_NaN.
    rewrite filterPixel_grayscale_only. cbv beta iota zeta. cbn [ToNumber].
    rewrite luminance_NaN_b, store_NaN. now exists 0, 0.
Qed.

(* ------------------------------------------------------------------ *)

(** C10.  With the neutral options [{grayscale: false, contrast: 1.0,
    brightness: 0, sharpen: 0}], and likewise with no option given so that
    the defaults apply, the guard of the per-pixel loop is false and
    [applyFilters] hands back every byte of the frame, alpha included,
    exactly as it came. *)
Theorem neutral_options_leave_frame_unchanged (buf : list Z) :
  pixelPassNeeded neutral = false
  /\ pixelPassNeeded noOptions = false
  /\ applyFiltersData buf neutral = buf
  /\ applyFiltersData buf noOptions = buf.
Proof. repeat split. Qed.

(** C7.  When the contrast option is 1.0 the contrast remap changes no
    channel value, whatever the factor, and the output of [applyFilters] is
    the output of the same pipeline without the contrast stage. *)
Theorem contrast_one_is_noop (buf : list Z) (o : FilterOptions) :
  contrast_of o = #1%js ->
  (forall factor p, contrastStage (contrast_of o) factor p = p)
  /\ applyFiltersData buf o = applyFiltersWithoutContrast buf o.
Proof.
  intros Hc. split.
  - intros factor p. rewrite Hc. apply contrastStage_one.
  - rewrite applyFiltersData_unfold.
    unfold pixelPassNeeded, applyFiltersWithoutContrast, filterLoop.
    rewrite Hc.
    change (#1 !== #1)%js with false. rewrite orb_false_r.
    destruct (grayscale_of o || (brightness_of o !== #0)%js); [|reflexivity].
    apply forEachPixel_ext. intros r g b. apply filterPixel_contrast_one.
Qed.

Lemma contrast_one_is_noop_witness :
  contrast_of grayscaleOnly = #1%js
  /\ applyFiltersData [10; 20; 30; 40] grayscaleOnly
     = applyFiltersWithoutContrast [10; 20; 30; 40] grayscaleOnly.
Proof.
  split; [reflexivity|].
  apply (contrast_one_is_noop [10; 20; 30; 40] grayscaleOnly). reflexivity.
Defined.

(** C8.  With contrast 1.0 and brightness 0, for either grayscale setting,
    running the filters on their own output changes nothing:
    [applyFilters] is idempotent on the pixel buffer. *)
Theorem filters_idempotent_at_unit_contrast (buf : list Z) (o : FilterOptions) :
  contrast_of o = #1%js ->
  brightness_of o = #0%js ->
  applyFiltersData (applyFiltersData buf o) o = applyFiltersData buf o.
Proof.
  intros Hc Hb.
  rewrite !applyFiltersData_unfold.
  unfold pixelPassNeeded, filterLoop. rewrite Hc, Hb.
  change (#1 !== #1)%js with false. change (#0 !== #0)%js with false.
  rewrite !orb_false_r.
  destruct (grayscale_of o); [|reflexivity].
  apply grayscale_loop_idempotent.
Qed.

Lemma filters_idempotent_at_unit_contrast_witness :
  contrast_of grayscaleOnly = #1%js
  /\ brightness_of grayscaleOnly = #0%js
  /\ applyFiltersData (applyFiltersData [200; 13; 77; 255; 1; 0; 0; 9] grayscaleOnly)
       grayscaleOnly
     = applyFiltersData [200; 13; 77; 255; 1; 0; 0; 9] grayscaleOnly.
Proof.
  split; [reflexivity|]. split; [reflexivity|].
  apply (filters_idempotent_at_unit_contrast _ grayscaleOnly); reflexivity.
Defined.

(** C2.  What the code does with the claim's input: at contrast 2.0 the
    factor [259 * (2*255 + 255) / (255 * (259 - 2*255))] is negative (about
    -3.1), so a channel at 255 is remapped to about -265 and the clamp
    stores 0, not 255.  The remap inverts the image: a channel at 0 comes
    out as 255. *)
Theorem contrast_two_sends_255_to_0 :
  (contrastFactor #2 <? #0)%js = true
  /\ store (contrastFactor #2 * (#255 - #128) + #128)%js = 0
  /\ applyFiltersData [255; 255; 255; 255] contrastTwo = [0; 0; 0; 255]
  /\ applyFiltersData [0; 0; 0; 255] contrastTwo = [255; 255; 255; 255].
Proof. vm_compute. repeat split. Qed.

(** C3, as stated, fails: no frame, options and positive weight exist for
    which the output with [sharpen > 0] differs from the output with
    [sharpen = 0]. *)
Lemma sharpen_never_changes_output :
  ~ (exists (buf : list Z) (o : FilterOptions) (weight : number),
        (#0 <? weight)%js = true
        /\ applyFiltersData buf (withSharpen o (Some weight))
           <> applyFiltersData buf (withSharpen o (Some #0%js))).
Proof.
  intros (buf & o & weight & _ & Hne).
  apply Hne, applyFiltersData_withSharpen.
Qed.

(** C3, amended.  For every frame and every options, [applyFilters] runs no
    convolution: the block guarded by [sharpen > 0] is empty, so the output
    with any sharpen weight, or none, is the output with [sharpen = 0]. *)
Theorem sharpen_weight_is_ignored (buf : list Z) (o : FilterOptions)
    (s : option number) :
  applyFiltersData buf (withSharpen o s)
  = applyFiltersData buf (withSharpen o (Some #0%js)).
Proof. apply applyFiltersData_withSharpen. Qed.

Lemma applyFiltersData_grayscaleOnly (buf : list Z) :
  applyFiltersData buf grayscaleOnly
  = forEachPixel (filterPixel true #1%js #0%js (contrastFactor #1%js)) buf.
Proof. reflexivity. Qed.

(* ================================================================== *)
(** ** The luminance sampler *)

Lemma rgbaPixels_length (buf : list Z) :
  forall n : nat, List.length buf = (4 * n)%nat -> List.length (rgbaPixels buf) = n.
Proof.
  induction buf as [|r|r g|r g b|r g b a rest IH] using quad_ind;
    intros n Hlen; cbn [List.length] in Hlen; try lia.
  - cbn [rgbaPixels List.length]. lia.
  - cbn [rgbaPixels List.length]. rewrite (IH (n - 1)%nat); lia.
Qed.

(** Sums of up to 2500 white pixels are exact: every partial sum is the
    integer [255 * k].  Checked on the 2500 steps. *)
Lemma white_step (k : nat) :
  (k < 2500)%nat ->
  (#(255 * Z.of_nat k) + luminance #255 #255 #255)%js = #(255 * Z.of_nat (S k))%js.
Proof.
  intros Hk.
  assert (Hall : map (fun k => (#(255 * Z.of_nat k) + luminance #255 #255 #255)%js)
                     (seq 0 2500)
                 = map (fun k => #(255 * Z.of_nat (S k))%js) (seq 0 2500))
    by (vm_compute; reflexivity).
  rewrite map_ext_in_iff in Hall.
  apply Hall, in_seq. lia.
Qed.

(* ================================================================== *)
(** ** The capture sequence *)

Ltac run_capture :=
  cbv [captureStrategy setTorch grabFrame applyConstraints
       bind ret throw tryCatch tryFinally await
       delay setTimeout setProcessing setIsFlashing setCapturedImage
       consoleError record andb];
  cbn [fst snd torch processing isFlashing capturedImage error trace].

(** Without a video element or without a canvas the sequence does nothing
    at all. *)
Lemma captureStrategy_missing_ref (v : Variant) (c : Component) (w : World) :
  videoRef c = None \/ canvasRef c = None ->
  captureStrategy v c w = (Returned tt, w).
Proof.
  intros H. unfold captureStrategy.
  destruct (videoRef c), (canvasRef c); destruct H; try discriminate; reflexivity.
Qed.

(** The sibling path: when the scene is low-light, the torch is supported,
    the grab succeeds and the device accepts the request, the torch is off
    when the sequence ends or stalls on the filters. *)
Lemma torch_off_after_successful_grab (v : Variant) (c : Component) (w : World)
    video canvas s track tracks :
  videoRef c = Some video ->
  canvasRef c = Some canvas ->
  stream c = Some s ->
  getVideoTracks s = track :: tracks ->
  accepts track (Torch false) = true ->
  torchSupported c = true ->
  isLowLight (Some video) = true ->
  has2dContext canvas = true ->
  torch (snd (captureStrategy v c w)) = false.
Proof.
  intros Hv Hc Hs Ht Hoff Hts Hlow Hctx.
  run_capture. rewrite Hv, Hc, Hlow, Hts, Hs, Ht, Hctx, Hoff.
  destruct (accepts track (Torch true));
    cbn [fst snd torch processing isFlashing capturedImage error trace];
    destruct (applyFilters _ _ _); reflexivity.
Qed.

(** The exceptional path: when the torch was switched on and the grab
    throws, control reaches [catch] and [finally] without passing
    [setTorch(false)], and the sequence returns with the torch on. *)
Lemma torch_on_after_failed_grab (v : Variant) (c : Component) (w : World)
    video canvas s track tracks :
  videoRef c = Some video ->
  canvasRef c = Some canvas ->
  stream c = Some s ->
  getVideoTracks s = track :: tracks ->
  accepts track (Torch true) = true ->
  torchSupported c = true ->
  isLowLight (Some video) = true ->
  has2dContext canvas = false ->
  fst (captureStrategy v c w) = Returned tt
  /\ torch (snd (captureStrategy v c w)) = true.
Proof.
  intros Hv Hc Hs Ht Hon Hts Hlow Hctx.
  run_capture. rewrite Hv, Hc, Hlow, Hts, Hs, Ht, Hctx, Hon.
  split; reflexivity.
Qed.


(** C1.  What the code does when the frame grab throws: in a dark scene
    with the torch supported and accepted by the device, and a canvas whose
    2D context is [null], the sequence switches the torch on, the grab
    throws, the error is logged, and the operation returns with the torch
    still on: no [Torch false] request is ever made. *)
Theorem torch_left_on_when_grab_throws :
  isLowLight (videoRef darkSceneNoContext) = true
  /\ torchSupported darkSceneNoContext = true
  /\ captureStrategy current darkSceneNoContext idle
     = (Returned tt,
        {| torch := true; processing := false; isFlashing := true;
           capturedImage := None; error := None;
           trace := [ConsoleError "Capture failed:" TypeError;
                     TimerSet 300; Waited 300; Waited 300;
                     AppliedConstraint (Torch true) true] |})
  /\ torch (snd (captureStrategy earlier darkSceneNoContext idle)) = true
  /\ torch (snd (captureStrategy current darkScene idle)) = false.
Proof. vm_compute. repeat split. Qed.

(** C4, as stated, fails: with the video element absent the capture
    returns normally, and neither an exception, nor the error state, nor
    the console carries any report. *)
Lemma missing_video_reports_nothing :
  videoRef noVideoCapture = None
  /\ ~ reportsError idle (captureStrategy current noVideoCapture idle).
Proof.
  split; [reflexivity|].
  unfold reportsError. vm_compute.
  intros [[e He]|[He|He]]; [discriminate He | now apply He | now apply He].
Qed.

(** C4, amended.  Whenever the capture operation is invoked with the video
    element or the canvas absent, it returns at once without an error and
    without any effect: the state is the one it was called in (no
    processing flag, no torch request, no image, no report). *)
Theorem missing_ref_is_a_silent_return (v : Variant) (c : Component) (w : World) :
  videoRef c = None \/ canvasRef c = None ->
  captureStrategy v c w = (Returned tt, w)
  /\ ~ reportsError w (captureStrategy v c w).
Proof.
  intros H. rewrite captureStrategy_missing_ref by assumption.
  split; [reflexivity|].
  intros [[e He]|[He|He]]; [discriminate He | now apply He | now apply He].
Qed.

Lemma missing_ref_is_a_silent_return_witness :
  (videoRef noVideoCapture = None \/ canvasRef noVideoCapture = None)
  /\ captureStrategy current noVideoCapture idle = (Returned tt, idle).
Proof.
  split; [left; reflexivity|].
  apply (missing_ref_is_a_silent_return current noVideoCapture idle).
  left. reflexivity.
Defined.





(* ================================================================== *)
(** ** Further properties of the filters *)

Import Pixels.

(** *** The order of numbers *)

Lemma lt_irrefl (x : number) : (x <? x)%js = false.
Proof.
  unfold lt, SFltb.
  destruct x as [s|s| |s m e]; try (destruct s; reflexivity); try reflexivity.
  cbn [SFcompare]. rewrite Z.compare_refl.
  change (Pos.compare_cont Eq m m) with (Pos.compare m m).
  rewrite Pos.compare_refl. destruct s; reflexivity.
Qed.

Lemma lt_NaN_r (x : number) : (x <? NaN)%js = false.
Proof. destruct x; reflexivity. Qed.

Lemma lt_asym (x y : number) : (x <? y)%js = true -> (y <? x)%js = false.
Proof.
  unfold lt, SFltb.
  destruct x as [sx|sx| |sx mx ex], y as [sy|sy| |sy my ey];
    cbn [SFcompare];
    try (destruct sx; try destruct sy; simpl; congruence);
    try (destruct sy; simpl; congruence);
    try congruence.
  change (Pos.compare_cont Eq mx my) with (Pos.compare mx my).
  change (Pos.compare_cont Eq my mx) with (Pos.compare my mx).
  rewrite (Z.compare_antisym ex ey), (Pos.compare_antisym mx my).
  destruct sx, sy; try congruence;
    destruct (ex ?= ey); cbn [CompOpp]; try congruence;
    destruct (mx ?= my)%positive; cbn [CompOpp]; congruence.
Qed.

(** [Math.min] and [Math.max] return [NaN] or one of their arguments, and
    the argument returned is not above (not below) the other one. *)
Lemma Math_min_cases (x y : number) :
  Math_min x y = NaN
  \/ (Math_min x y = y /\ (x <? y)%js = false)
  \/ (Math_min x y = x /\ (y <? x)%js = false).
Proof.
  destruct (y <? x)%js eqn:Hyx.
  - right; left. split; [|now apply lt_asym].
    destruct x, y; try discriminate Hyx;
      cbv beta iota delta [Math_min]; now rewrite Hyx.
  - destruct (x <? y)%js eqn:Hxy.
    + right; right. split; [|reflexivity].
      destruct x, y; try discriminate Hxy;
        cbv beta iota delta [Math_min]; now rewrite Hyx, Hxy.
    + destruct x as [[|]| | |], y; try (left; reflexivity);
        cbv beta iota delta [Math_min]; rewrite Hyx, Hxy; auto.
Qed.

Lemma Math_max_cases (x y : number) :
  Math_max x y = NaN
  \/ (Math_max x y = y /\ (y <? x)%js = false)
  \/ (Math_max x y = x /\ (x <? y)%js = false).
Proof.
  destruct (x <? y)%js eqn:Hxy.
  - right; left. split; [|now apply lt_asym].
    destruct x, y; try discriminate Hxy;
      cbv beta iota delta [Math_max]; now rewrite Hxy.
  - destruct (y <? x)%js eqn:Hyx.
    + right; right. split; [|reflexivity].
      destruct x, y; try discriminate Hyx;
        cbv beta iota delta [Math_max]; now rewrite Hxy, Hyx.
    + destruct x as [[|]| | |], y; try (left; reflexivity);
        cbv beta iota delta [Math_max]; rewrite Hxy, Hyx; auto.
Qed.

Lemma Math_max_NaN (x y : number) : Math_max x y = NaN -> x = NaN \/ y = NaN.
Proof.
  destruct (Math_max_cases x y) as [_|[[E _]|[E _]]]; rewrite ?E; auto.
  destruct x; auto; destruct y; auto;
    cbv beta iota delta [Math_max];
    repeat match goal with |- context [if ?b then _ else _] => destruct b end;
    try match goal with |- context [match ?s with true => _ | false => _ end] =>
          destruct s end;
    intros E; discriminate E.
Qed.

Lemma Math_min_NaN (x y : number) : Math_min x y = NaN -> x = NaN \/ y = NaN.
Proof.
  destruct (Math_min_cases x y) as [_|[[E _]|[E _]]]; rewrite ?E; auto.
  destruct x; auto; destruct y; auto;
    cbv beta iota delta [Math_min];
    repeat match goal with |- context [if ?b then _ else _] => destruct b end;
    try match goal with |- context [match ?s with true => _ | false => _ end] =>
          destruct s end;
    intros E; discriminate E.
Qed.

(** *** [clamp] *)

(** X5.  [clamp] keeps every number within [0, 255]: its result is never
    below 0 and never above 255, and it is [NaN] only for [NaN], which the
    byte store then writes as 0. *)
Theorem clamp_bounds (v : number) :
  (clamp v <? #0)%js = false
  /\ (#255 <? clamp v)%js = false
  /\ (clamp v = NaN <-> v = NaN)
  /\ store NaN = 0.
Proof.
  unfold clamp. set (m := Math_min #255%js v). split; [|split; [|split]].
  - destruct (Math_max_cases #0%js m) as [E|[[E H]|[E H]]]; rewrite E.
    + reflexivity.
    + exact H.
    + reflexivity.
  - destruct (Math_max_cases #0%js m) as [E|[[E H]|[E H]]]; rewrite E.
    + reflexivity.
    + subst m.
      destruct (Math_min_cases #255%js v) as [E'|[[E' H']|[E' H']]]; rewrite E'.
      * reflexivity.
      * exact H'.
      * apply lt_irrefl.
    + reflexivity.
  - split.
    + intros E. apply Math_max_NaN in E. destruct E as [E|E]; [discriminate E|].
      subst m. apply Math_min_NaN in E. destruct E as [E|E]; [discriminate E|exact E].
    + intros ->. reflexivity.
  - reflexivity.
Qed.

(** *** What the loop never touches, and what it always writes *)

Lemma forEachPixel_alpha body (buf : list Z) :
  forall i : nat, (i mod 4 = 3)%nat ->
    nth_error (forEachPixel body buf) i = nth_error buf i.
Proof.
  induction buf as [|r|r g|r g b|r g b a rest IH] using quad_ind;
    intros i Hi; cbn [forEachPixel].
  - reflexivity.
  - destruct (body _ _ _) as [[r' g'] b'].
    destruct i as [|[|[|i]]]; try discriminate Hi; reflexivity.
  - destruct (body _ _ _) as [[r' g'] b'].
    destruct i as [|[|[|i]]]; try discriminate Hi; reflexivity.
  - destruct (body _ _ _) as [[r' g'] b'].
    destruct i as [|[|[|i]]]; try discriminate Hi; reflexivity.
  - destruct (body _ _ _) as [[r' g'] b'].
    destruct i as [|[|[|[|i]]]]; try discriminate Hi; [reflexivity|].
    cbn [nth_error]. apply IH.
    change (S (S (S (S i)))) with (4 + i)%nat in Hi.
    rewrite Nat.add_comm in Hi.
    replace (i + 4)%nat with (i + 1 * 4)%nat in Hi by lia.
    now rewrite Nat.Div0.mod_add in Hi.
Qed.

Lemma forEachPixel_bytes body (buf : list Z) :
  (forall r g b,
      let '(r', g', b') := body r g b in isByte r' /\ isByte g' /\ isByte b') ->
  Forall isByte buf -> Forall isByte (forEachPixel body buf).
Proof.
  intros Hbody.
  induction buf as [|r|r g|r g b|r g b a rest IH] using quad_ind;
    intros Hbuf; cbn [forEachPixel].
  - constructor.
  - specialize (Hbody (Some r) None None).
    destruct (body _ _ _) as [[r' g'] b']. destruct Hbody as (? & ? & ?).
    repeat (constructor; [assumption|]); constructor.
  - specialize (Hbody (Some r) (Some g) None).
    destruct (body _ _ _) as [[r' g'] b']. destruct Hbody as (? & ? & ?).
    repeat (constructor; [assumption|]); constructor.
  - specialize (Hbody (Some r) (Some g) (Some b)).
    destruct (body _ _ _) as [[r' g'] b']. destruct Hbody as (? & ? & ?).
    repeat (constructor; [assumption|]); constructor.
  - specialize (Hbody (Some r) (Some g) (Some b)).
    destruct (body _ _ _) as [[r' g'] b']. destruct Hbody as (? & ? & ?).
    inversion Hbuf as [|? ? _ Hb1]; subst.
    inversion Hb1 as [|? ? _ Hb2]; subst.
    inversion Hb2 as [|? ? _ Hb3]; subst.
    inversion Hb3 as [|? ? Ha Hrest]; subst.
    repeat (constructor; [assumption|]). now apply IH.
Qed.

Lemma filterPixel_bytes grayscale contrast brightness factor r g b :
  let '(r', g', b') := filterPixel grayscale contrast brightness factor r g b in
  isByte r' /\ isByte g' /\ isByte b'.
Proof.
  unfold filterPixel.
  destruct (brightnessStage _ _) as [[r' g'] b'].
  repeat split; apply store_range.
Qed.

(** X1.  Whatever the options, [applyFilters] keeps the length of the
    pixel buffer and leaves every alpha byte (every fourth byte) as it
    was. *)
Theorem filters_keep_alpha_and_length (buf : list Z) (o : FilterOptions) (i : nat) :
  (i mod 4 = 3)%nat ->
  List.length (applyFiltersData buf o) = List.length buf
  /\ nth_error (applyFiltersData buf o) i = nth_error buf i.
Proof.
  intros Hi. rewrite applyFiltersData_unfold.
  destruct (pixelPassNeeded o); [|split; reflexivity].
  unfold filterLoop. split.
  - apply forEachPixel_length.
  - now apply forEachPixel_alpha.
Qed.

Lemma filters_keep_alpha_and_length_witness :
  (7 mod 4 = 3)%nat
  /\ nth_error (applyFiltersData [9; 8; 7; 6; 5; 4; 3; 2] (filterOptions current)) 7
     = nth_error [9; 8; 7; 6; 5; 4; 3; 2] 7.
Proof.
  split; [reflexivity|].
  apply (filters_keep_alpha_and_length [9; 8; 7; 6; 5; 4; 3; 2]
           (filterOptions current) 7).
  reflexivity.
Defined.

(** X2.  Bytes in, bytes out: if every value of the buffer is within
    [0, 255], so is every value of the result, for all options, a [NaN]
    or infinite contrast or brightness included. *)
Theorem filters_keep_bytes (buf : list Z) (o : FilterOptions) :
  Forall isByte buf -> Forall isByte (applyFiltersData buf o).
Proof.
  intros Hbuf. rewrite applyFiltersData_unfold.
  destruct (pixelPassNeeded o); [|exact Hbuf].
  apply forEachPixel_bytes; [|exact Hbuf].
  intros r g b. apply filterPixel_bytes.
Qed.

Lemma filters_keep_bytes_witness :
  Forall isByte [12; 200; 255; 0]
  /\ Forall isByte
       (applyFiltersData [12; 200; 255; 0]
          {| grayscale := Some false; contrast := Some NaN;
             brightness := Some (S754_infinity false); sharpen := None |}).
Proof.
  assert (H : Forall isByte [12; 200; 255; 0])
    by (repeat constructor; unfold isByte; lia).
  split; [exact H|].
  apply (filters_keep_bytes [12; 200; 255; 0]). exact H.
Defined.

(** X3.  With grayscale on, every pixel of the result is grey (R = G = B),
    whatever the contrast and the brightness. *)
Theorem grayscale_output_is_grey (buf : list Z) (o : FilterOptions) :
  grayscale_of o = true ->
  Forall isGrey (rgbaPixels (applyFiltersData buf o)).
Proof.
  intros Hg. rewrite applyFiltersData_unfold.
  unfold pixelPassNeeded, filterLoop. rewrite Hg. cbn [orb].
  set (c := contrast_of o). set (br := brightness_of o).
  set (f := contrastFactor c). clearbody c br f.
  assert (Hbody : forall r g b, exists y,
             filterPixel true c br f r g b = (y, y, y)).
  { intros r g b. unfold filterPixel, grayscaleStage, contrastStage, brightnessStage.
    destruct (c !== #1)%js, (br !== #0)%js; eexists; reflexivity. }
  induction buf as [|r|r g|r g b|r g b a rest IH] using quad_ind;
    cbn [forEachPixel].
  - constructor.
  - destruct (Hbody (Some r) None None) as [y ->]. constructor.
  - destruct (Hbody (Some r) (Some g) None) as [y ->]. constructor.
  - destruct (Hbody (Some r) (Some g) (Some b)) as [y ->]. constructor.
  - destruct (Hbody (Some r) (Some g) (Some b)) as [y ->].
    cbn [rgbaPixels]. constructor; [split; reflexivity|exact IH].
Qed.

Lemma grayscale_output_is_grey_witness :
  grayscale_of (filterOptions current) = true
  /\ Forall isGrey
       (rgbaPixels (applyFiltersData [10; 200; 30; 255; 0; 0; 250; 7]
                      (filterOptions current))).
Proof.
  split; [reflexivity|].
  apply (grayscale_output_is_grey _ (filterOptions current)). reflexivity.
Defined.

(** *** Small integers as numbers *)

Lemma forallb_Zrange (f : Z -> bool) (lo : Z) (n : nat) :
  forallb (fun i => f (lo + Z.of_nat i)) (seq 0 n) = true ->
  forall z, lo <= z < lo + Z.of_nat n -> f z = true.
Proof.
  intros Hall z Hz. rewrite forallb_forall in Hall.
  specialize (Hall (Z.to_nat (z - lo))).
  replace (lo + Z.of_nat (Z.to_nat (z - lo))) with z in Hall by lia.
  apply Hall, in_seq. lia.
Qed.

Lemma smallShape_ok (z : Z) : -511 <= z <= 511 -> smallShape z = true.
Proof.
  intros Hz.
  apply (forallb_Zrange smallShape (-511) 1023); [vm_compute; reflexivity|lia].
Qed.

Lemma ofZ_small (z : Z) :
  -511 <= z <= 511 -> z <> 0 ->
  exists m e, #z%js = S754_finite (z <? 0) m e
              /\ -52 <= e <= -44 /\ Z.pos m = Z.abs z * 2 ^ (- e).
Proof.
  intros Hz Hnz. pose proof (smallShape_ok z Hz) as H.
  unfold smallShape in H. destruct #z%js as [s|s| |s m e]; try discriminate H.
  - apply andb_prop in H. destruct H as [H _]. apply Z.eqb_eq in H. contradiction.
  - repeat (apply andb_prop in H; destruct H as [H ?]).
    exists m, e. apply eqb_prop in H. subst s.
    repeat split; lia.
Qed.

Lemma iter_xO (d m : positive) : Z.pos (Pos.iter xO m d) = Z.pos m * 2 ^ Z.pos d.
Proof.
  induction d as [|d IH] using Pos.peano_ind.
  - cbn [Pos.iter]. lia.
  - rewrite Pos.iter_succ, Pos2Z.inj_succ, Z.pow_succ_r by lia.
    rewrite Pos2Z.inj_xO, IH. lia.
Qed.

Lemma shl_align_value (m : positive) (e ez : Z) :
  ez <= e -> Z.pos (fst (shl_align m e ez)) = Z.pos m * 2 ^ (e - ez).
Proof.
  intros Hle. unfold shl_align.
  destruct (ez - e) as [|d|d] eqn:Hd; cbn [fst].
  - replace (e - ez) with 0 by lia. lia.
  - lia.
  - rewrite iter_xO. f_equal. f_equal. lia.
Qed.

(** Renormalising a small integer scaled by a power of two gives the
    integer back.  Checked on the 1021 sums and the 9 scales. *)
Lemma normalize_scaled (n j : Z) :
  -510 <= n <= 510 -> 44 <= j <= 52 ->
  binary_normalize prec emax (n * 2 ^ j) (- j) false = #n%js.
Proof.
  intros Hn Hj.
  pose (check := fun n j =>
          match binary_normalize prec emax (n * 2 ^ j) (- j) false, #n%js with
          | S754_zero s, S754_zero s' => Bool.eqb s s'
          | S754_finite s m e, S754_finite s' m' e' =>
              Bool.eqb s s' && (m =? m')%positive && (e =? e')
          | _, _ => false
          end).
  assert (Hall : forallb (fun i => forallb (fun k => check (-510 + Z.of_nat i)
                                                      (44 + Z.of_nat k))
                                       (seq 0 9))
                         (seq 0 1021) = true) by (vm_compute; reflexivity).
  assert (H : check n j = true).
  { apply (forallb_Zrange (fun j => check n j) 44 9); [|lia].
    apply (forallb_Zrange
             (fun n => forallb (fun k => check n (44 + Z.of_nat k)) (seq 0 9))
             (-510) 1021 Hall). lia. }
  unfold check in H.
  destruct (binary_normalize _ _ _ _ _) as [s|s| |s m e], #n%js as [s'|s'| |s' m' e'];
    try discriminate H.
  - apply eqb_prop in H. now subst.
  - repeat (apply andb_prop in H; destruct H as [H ?]).
    apply eqb_prop in H. apply Pos.eqb_eq in H1. apply Z.eqb_eq in H0. now subst.
Qed.

(** Addition of two integers between -255 and 255 is exact. *)
Lemma add_small (a b : Z) :
  -255 <= a <= 255 -> -255 <= b <= 255 -> (#a + #b)%js = #(a + b)%js.
Proof.
  intros Ha Hb.
  destruct (Z.eq_dec a 0) as [->|Ha0].
  { cbn [Z.add]. change #0%js with (S754_zero false).
    pose proof (smallShape_ok b ltac:(lia)) as H. unfold smallShape in H.
    destruct #b%js as [s|s| |s m e]; try discriminate H; [|reflexivity].
    apply andb_prop in H. destruct H as [_ H]. destruct s; [discriminate H|reflexivity]. }
  destruct (Z.eq_dec b 0) as [->|Hb0].
  { rewrite Z.add_0_r. change #0%js with (S754_zero false).
    destruct (ofZ_small a ltac:(lia) Ha0) as (m & e & -> & _). reflexivity. }
  destruct (ofZ_small a ltac:(lia) Ha0) as (ma & ea & -> & Hea & Hma).
  destruct (ofZ_small b ltac:(lia) Hb0) as (mb & eb & -> & Heb & Hmb).
  unfold add. cbn [SFadd].
  set (ez := Z.min ea eb).
  rewrite <- (normalize_scaled (a + b) (- ez)) by (subst ez; lia).
  f_equal; [|lia].
  rewrite !shl_align_value by (subst ez; lia).
  rewrite Hma, Hmb, <- !Z.mul_assoc, <- !Z.pow_add_r by lia.
  replace (- ea + (ea - ez)) with (- ez) by lia.
  replace (- eb + (eb - ez)) with (- ez) by lia.
  unfold cond_Zopp.
  destruct (a <? 0) eqn:Sa, (b <? 0) eqn:Sb; lia.
Qed.

(** Storing an integer saturates it. *)
Lemma store_small (n : Z) : -510 <= n <= 510 -> store #n%js = saturate n.
Proof.
  intros Hn. apply Z.eqb_eq.
  apply (forallb_Zrange (fun n => store #n%js =? saturate n) (-510) 1021);
    [vm_compute; reflexivity|lia].
Qed.

Lemma ofZ_small_nonzero (k : Z) :
  -511 <= k <= 511 -> k <> 0 -> (#k !== #0)%js = true.
Proof.
  intros Hk Hnz. destruct (ofZ_small k Hk Hnz) as (m & e & -> & _).
  change #0%js with (S754_zero false).
  destruct (k <? 0); reflexivity.
Qed.

(** *** Brightness on bytes *)

Lemma brightness_channel (k v : Z) :
  -255 <= k <= 255 -> 0 <= v <= 255 ->
  store (if (#k !== #0)%js then (#v + #k)%js else #v%js) = saturate (v + k).
Proof.
  intros Hk Hv.
  destruct (Z.eq_dec k 0) as [->|Hnz].
  - change (#0 !== #0)%js with false. rewrite Z.add_0_r. apply store_small. lia.
  - rewrite ofZ_small_nonzero by lia.
    rewrite add_small by lia. apply store_small. lia.
Qed.

Lemma filterPixel_brightness_only factor br r g b :
  filterPixel false #1%js br factor (Some r) (Some g) (Some b)
  = (store (if (br !== #0)%js then (#r + br)%js else #r%js),
     store (if (br !== #0)%js then (#g + br)%js else #g%js),
     store (if (br !== #0)%js then (#b + br)%js else #b%js)).
Proof.
  unfold filterPixel, grayscaleStage. rewrite contrastStage_one.
  unfold brightnessStage. cbn [ToNumber].
  destruct (br !== #0)%js; reflexivity.
Qed.

Lemma brightened_pixels_loop (k : Z) factor (buf : list Z) :
  -255 <= k <= 255 -> Forall isByte buf ->
  rgbaPixels (forEachPixel (filterPixel false #1%js #k%js factor) buf)
  = map (brightened k) (rgbaPixels buf).
Proof.
  intros Hk.
  induction buf as [|r|r g|r g b|r g b a rest IH] using quad_ind;
    intros Hbuf; cbn [forEachPixel].
  - reflexivity.
  - destruct (filterPixel _ _ _ _ _ _ _) as [[r' g'] b']. reflexivity.
  - destruct (filterPixel _ _ _ _ _ _ _) as [[r' g'] b']. reflexivity.
  - destruct (filterPixel _ _ _ _ _ _ _) as [[r' g'] b']. reflexivity.
  - inversion Hbuf as [|? ? Hr Hb1]; subst.
    inversion Hb1 as [|? ? Hg Hb2]; subst.
    inversion Hb2 as [|? ? Hb Hb3]; subst.
    inversion Hb3 as [|? ? Ha Hrest]; subst.
    rewrite filterPixel_brightness_only.
    rewrite !brightness_channel by assumption.
    cbn [rgbaPixels map brightened]. now rewrite IH.
Qed.

Lemma brightened_zero (buf : list Z) :
  Forall isByte buf -> map (brightened 0) (rgbaPixels buf) = rgbaPixels buf.
Proof.
  induction buf as [|r|r g|r g b|r g b a rest IH] using quad_ind;
    intros Hbuf; try reflexivity.
  inversion Hbuf as [|? ? Hr Hb1]; subst.
  inversion Hb1 as [|? ? Hg Hb2]; subst.
  inversion Hb2 as [|? ? Hb Hb3]; subst.
  inversion Hb3 as [|? ? Ha Hrest]; subst.
  cbn [rgbaPixels map brightened]. rewrite IH by assumption.
  unfold isByte in *.
  replace (saturate (r + 0)) with r by (unfold saturate; lia).
  replace (saturate (g + 0)) with g by (unfold saturate; lia).
  replace (saturate (b + 0)) with b by (unfold saturate; lia).
  reflexivity.
Qed.

(** X4.  With no grayscale and contrast 1.0, an integer brightness [k]
    between -255 and 255 is a saturating addition on bytes: every colour
    channel [v] of every pixel becomes [max 0 (min 255 (v + k))] and alpha
    stays. *)
Theorem brightness_is_saturating_add (buf : list Z) (k : Z) :
  -255 <= k <= 255 ->
  Forall isByte buf ->
  rgbaPixels (applyFiltersData buf (brightnessOnly k))
  = map (brightened k) (rgbaPixels buf).
Proof.
  intros Hk Hbuf. rewrite applyFiltersData_unfold.
  unfold pixelPassNeeded, filterLoop, brightnessOnly.
  cbn [grayscale_of contrast_of brightness_of grayscale contrast brightness].
  change (#1 !== #1)%js with false. cbn [orb].
  destruct (Z.eq_dec k 0) as [->|Hnz].
  - change (#0 !== #0)%js with false. symmetry. now apply brightened_zero.
  - rewrite ofZ_small_nonzero by lia. now apply brightened_pixels_loop.
Qed.

Lemma brightness_is_saturating_add_witness :
  -255 <= 20 <= 255
  /\ Forall isByte [250; 100; 0; 255]
  /\ rgbaPixels (applyFiltersData [250; 100; 0; 255] (brightnessOnly 20))
     = map (brightened 20) (rgbaPixels [250; 100; 0; 255]).
Proof.
  assert (H : Forall isByte [250; 100; 0; 255])
    by (repeat constructor; unfold isByte; lia).
  split; [lia|]. split; [exact H|].
  apply (brightness_is_saturating_add [250; 100; 0; 255] 20); [lia|exact H].
Defined.

(** *** The options the component passes *)

Lemma decreasing_from_steps (f : Z -> Z) (lo hi : Z) :
  (forall y, lo <= y < hi -> f (y + 1) <= f y) ->
  forall y y', lo <= y -> y <= y' -> y' <= hi -> f y' <= f y.
Proof.
  intros Hstep y y' Hlo Hle Hhi.
  replace y' with (y + Z.of_nat (Z.to_nat (y' - y))) in * by lia.
  induction (Z.to_nat (y' - y)) as [|n IH].
  - rewrite Z.add_0_r. lia.
  - rewrite Nat2Z.inj_succ in *.
    replace (y + Z.succ (Z.of_nat n)) with (y + Z.of_nat n + 1) in * by lia.
    specialize (Hstep (y + Z.of_nat n)). lia.
Qed.

(** X6.  The options every copy of the component passes (grayscale with
    contrast 1.2 or 1.1) give a negative contrast factor, so the filters
    invert grey levels: on opaque grey pixels a lighter input never gives a
    lighter output, black comes out white and white comes out black. *)
Theorem shipped_options_invert_grey_levels (v : Variant) (y y' : Z) :
  v = current \/ v = earlier ->
  0 <= y -> y <= y' -> y' <= 255 ->
  (contrastFactor (contrast_of (filterOptions v)) <? #0)%js = true
  /\ greyResponse (filterOptions v) y' <= greyResponse (filterOptions v) y
  /\ greyResponse (filterOptions v) 0 = 255
  /\ greyResponse (filterOptions v) 255 = 0.
Proof.
  intros Hv Hy Hle Hy'.
  assert (Hstep : forall o, o = filterOptions current \/ o = filterOptions earlier ->
            forall y, 0 <= y < 255 -> greyResponse o (y + 1) <= greyResponse o y).
  { intros o Ho z Hz. apply Z.leb_le.
    apply (forallb_Zrange (fun z => greyResponse o (z + 1) <=? greyResponse o z) 0 255);
      [|lia].
    destruct Ho as [-> | ->]; vm_compute; reflexivity. }
  split; [destruct Hv as [-> | ->]; vm_compute; reflexivity|].
  split.
  - apply (decreasing_from_steps (greyResponse (filterOptions v)) 0 255); try lia.
    apply Hstep. destruct Hv as [-> | ->]; auto.
  - destruct Hv as [-> | ->]; vm_compute; split; reflexivity.
Qed.

Lemma shipped_options_invert_grey_levels_witness :
  (current = current \/ current = earlier)
  /\ 0 <= 100 /\ 100 <= 140 /\ 140 <= 255
  /\ greyResponse (filterOptions current) 140 <= greyResponse (filterOptions current) 100.
Proof.
  split; [left; reflexivity|]. repeat (split; [lia|]).
  apply (shipped_options_invert_grey_levels current 100 140); try lia.
  left; reflexivity.
Defined.

(* ================================================================== *)
(** ** Accuracy of the luminance

    How far the numbers the two loops compute are from the exact
    luminance [0.299 R + 0.587 G + 0.114 B]: every operation on regular
    numbers returns a regular number within one unit in the last place
    of the exact result. *)

Import Exact.

(** *** Digits *)

Lemma digits2_size (m : positive) : digits2_pos m = Pos.size m.
Proof. induction m as [m IH|m IH|]; cbn; congruence. Qed.

Lemma digits_bounds (m : positive) :
  2 ^ (Z.pos (digits2_pos m) - 1) <= Z.pos m < 2 ^ Z.pos (digits2_pos m).
Proof.
  rewrite digits2_size. split.
  - pose proof (Pos.size_le m) as H.
    apply Pos2Z.pos_le_pos in H. rewrite Pos2Z.inj_pow in H.
    change (Z.pos m~0) with (2 * Z.pos m) in H.
    replace (Z.pos (Pos.size m)) with (Z.pos (Pos.size m) - 1 + 1) in H by lia.
    rewrite Z.pow_add_r, Z.pow_1_r in H by lia. lia.
  - pose proof (Pos.size_gt m) as H.
    apply Pos2Z.pos_lt_pos in H. now rewrite Pos2Z.inj_pow in H.
Qed.

Lemma digits_unique (m : positive) (d : Z) :
  2 ^ (d - 1) <= Z.pos m < 2 ^ d -> Z.pos (digits2_pos m) = d.
Proof.
  intros [Hlo Hhi]. pose proof (digits_bounds m) as [Hlo' Hhi'].
  set (d' := Z.pos (digits2_pos m)) in *.
  destruct (Z.lt_trichotomy d' d) as [H|[H|H]]; [|exact H|].
  - assert (2 ^ d' <= 2 ^ (d - 1)) by (apply Z.pow_le_mono_r; lia). lia.
  - assert (d < 0 \/ 0 <= d) as [Hd|Hd] by lia.
    + rewrite (Z.pow_neg_r 2 d) in Hhi by lia. lia.
    + assert (2 ^ d <= 2 ^ (d' - 1)) by (apply Z.pow_le_mono_r; lia). lia.
Qed.

(** *** Shifting a mantissa to the right *)

Lemma shr_1_m (mrs : shr_record) :
  0 <= shr_m mrs -> shr_m (shr_1 mrs) = shr_m mrs / 2.
Proof.
  destruct mrs as [m r s]. cbn [shr_m]. intros Hm.
  destruct m as [|[p|p|]|p]; cbn [shr_1 shr_m]; try lia; try reflexivity.
  - apply Z.div_unique with (r := 1); lia.
  - apply Z.div_unique with (r := 0); lia.
Qed.

Lemma iter_shr_m (p : positive) :
  forall mrs, 0 <= shr_m mrs ->
    shr_m (iter_pos shr_1 p mrs) = shr_m mrs / 2 ^ Z.pos p.
Proof.
  induction p as [p IH|p IH|]; intros mrs Hm; cbn [iter_pos].
  - assert (H1 : 0 <= shr_m (shr_1 mrs))
      by (rewrite shr_1_m by assumption; apply Z.div_pos; lia).
    assert (H2 : 0 <= shr_m (iter_pos shr_1 p (shr_1 mrs)))
      by (rewrite IH by assumption; apply Z.div_pos; [assumption|apply Z.pow_pos_nonneg; lia]).
    rewrite IH, IH, shr_1_m by assumption.
    assert (Hp : 0 < 2 ^ Z.pos p) by (apply Z.pow_pos_nonneg; lia).
    rewrite !Z.div_div by lia. f_equal.
    replace (Z.pos p~1) with (1 + Z.pos p + Z.pos p) by lia.
    rewrite !Z.pow_add_r by lia. lia.
  - assert (H2 : 0 <= shr_m (iter_pos shr_1 p mrs))
      by (rewrite IH by assumption; apply Z.div_pos; [assumption|apply Z.pow_pos_nonneg; lia]).
    rewrite IH, IH by assumption.
    assert (Hp : 0 < 2 ^ Z.pos p) by (apply Z.pow_pos_nonneg; lia).
    rewrite !Z.div_div by lia. f_equal.
    replace (Z.pos p~0) with (Z.pos p + Z.pos p) by lia.
    rewrite !Z.pow_add_r by lia. lia.
  - now apply shr_1_m.
Qed.

Lemma shr_record_of_loc_m (m : Z) (l : location) : shr_m (shr_record_of_loc m l) = m.
Proof. destruct l as [|[| |]]; reflexivity. Qed.

Lemma loc_of_shr_record_of_loc (m : Z) (l : location) :
  loc_of_shr_record (shr_record_of_loc m l) = l.
Proof. destruct l as [|[| |]]; reflexivity. Qed.

(** The first step of rounding: the mantissa loses its [d - 53] lowest
    bits. *)
Lemma shr_fexp_m (mx : positive) (ex : Z) (lx : location) :
  let d := Z.pos (digits2_pos mx) in
  53 <= d -> -1074 <= ex + d - 53 ->
  exists mrs,
    shr_fexp prec emax (Z.pos mx) ex lx = (mrs, ex + d - 53)
    /\ shr_m mrs = Z.pos mx / 2 ^ (d - 53)
    /\ (d = 53 -> mrs = shr_record_of_loc (Z.pos mx) lx).
Proof.
  intros d Hd Hex. unfold shr_fexp.
  assert (Hn : fexp prec emax (Zdigits2 (Z.pos mx) + ex) - ex = d - 53).
  { unfold fexp, SpecFloat.emin, prec, emax. cbn [Zdigits2]. fold d. lia. }
  rewrite Hn. unfold shr.
  destruct (d - 53) as [|p|p] eqn:Hp; try lia.
  - eexists. split; [f_equal; lia|]. split; [|reflexivity].
    rewrite shr_record_of_loc_m. cbn. now rewrite Z.div_1_r.
  - eexists. split; [f_equal; lia|]. split; [|lia].
    rewrite iter_shr_m by (rewrite shr_record_of_loc_m; lia).
    now rewrite shr_record_of_loc_m.
Qed.

Lemma round_nearest_even_cases (m : Z) (l : location) :
  round_nearest_even m l = m \/ round_nearest_even m l = m + 1.
Proof.
  destruct l as [|[| |]]; cbn [round_nearest_even]; auto.
  destruct (Z.even m); auto.
Qed.

(** [binary_round_aux] on a positive mantissa of at least 53 bits: the
    result is a regular number within one unit in the last place of the
    value it was given, and the very value when nothing has to go. *)
Lemma round_aux_regular (mx : positive) (ex : Z) (lx : location) :
  let d := Z.pos (digits2_pos mx) in
  53 <= d -> -1074 <= ex + d - 53 -> ex + d <= 1023 ->
  exists m' e',
    binary_round_aux prec emax false (Z.pos mx) ex lx = S754_finite false m' e'
    /\ 2 ^ 52 <= Z.pos m' < 2 ^ 53
    /\ ex + d - 53 <= e' <= ex + d - 52
    /\ Z.pos mx - 2 ^ (d - 53) < Z.pos m' * 2 ^ (e' - ex) <= Z.pos mx + 2 ^ (d - 53)
    /\ (lx = loc_Exact -> d = 53 -> m' = mx /\ e' = ex).
Proof.
  intros d Hd Hlo Hhi.
  destruct (shr_fexp_m mx ex lx Hd Hlo) as (mrs & E1 & Hq & Hex).
  fold d in E1, Hq, Hex.
  unfold binary_round_aux. rewrite E1.
  pose proof (digits_bounds mx) as [Hdl Hdh]. fold d in Hdl, Hdh.
  set (n := d - 53) in *.
  assert (Hn : 0 < 2 ^ n) by (apply Z.pow_pos_nonneg; lia).
  replace (d - 1) with (52 + n) in Hdl by lia.
  replace d with (53 + n) in Hdh by lia.
  rewrite Z.pow_add_r in Hdl, Hdh by lia.
  set (q := Z.pos mx / 2 ^ n) in *.
  assert (Hq1 : 2 ^ 52 <= q < 2 ^ 53).
  { split; [apply Z.div_le_lower_bound|apply Z.div_lt_upper_bound]; lia. }
  assert (Hq2 : 2 ^ n * q <= Z.pos mx < 2 ^ n * (q + 1)).
  { split; [apply Z.mul_div_le; lia|].
    pose proof (Z.mul_succ_div_gt (Z.pos mx) (2 ^ n) Hn). fold q in H. lia. }
  set (r := round_nearest_even (shr_m mrs) (loc_of_shr_record mrs)).
  assert (Hr : r = q \/ r = q + 1)
    by (subst r; rewrite Hq; apply round_nearest_even_cases).
  assert (Hrx : lx = loc_Exact -> d = 53 -> r = Z.pos mx).
  { intros -> Hd53. subst r. rewrite (Hex Hd53). reflexivity. }
  clearbody r.
  destruct r as [|pr|pr]; try lia.
  destruct (Z.lt_ge_cases (Z.pos pr) (2 ^ 53)) as [Hlt|Hge].
  - assert (Hdr : Z.pos (digits2_pos pr) = 53) by (apply digits_unique; lia).
    destruct (shr_fexp_m pr (ex + d - 53) loc_Exact) as (mrs2 & E2 & _ & Hex2);
      rewrite ?Hdr; try lia.
    rewrite Hdr in E2. rewrite E2, (Hex2 Hdr). cbn [shr_record_of_loc shr_m].
    replace (ex + d - 53 + 53 - 53 <=? emax - prec) with true
      by (symmetry; apply Z.leb_le; unfold emax, prec; lia).
    exists pr, (ex + d - 53 + 53 - 53).
    split; [reflexivity|]. split; [lia|]. split; [lia|].
    replace (ex + d - 53 + 53 - 53 - ex) with n by lia.
    split; [nia|].
    intros Hl Hd53. specialize (Hrx Hl Hd53). split; [congruence|lia].
  - assert (Hpr : Z.pos pr = 2 ^ 53) by lia.
    assert (Hdr : Z.pos (digits2_pos pr) = 54) by (apply digits_unique; lia).
    destruct (shr_fexp_m pr (ex + d - 53) loc_Exact) as (mrs2 & E2 & Hm2 & _);
      rewrite ?Hdr; try lia.
    rewrite Hdr in E2, Hm2. rewrite E2.
    rewrite Hpr in Hm2. change (2 ^ 53 / 2 ^ (54 - 53)) with (2 ^ 52) in Hm2.
    destruct (shr_m mrs2) as [|m2|m2] eqn:Em; try (exfalso; lia).
    replace (ex + d - 53 + 54 - 53 <=? emax - prec) with true
      by (symmetry; apply Z.leb_le; unfold emax, prec; lia).
    exists m2, (ex + d - 53 + 54 - 53).
    split; [reflexivity|]. split; [lia|]. split; [lia|].
    replace (ex + d - 53 + 54 - 53 - ex) with (n + 1) by lia.
    rewrite Z.pow_add_r, Z.pow_1_r by lia.
    split; [nia|].
    intros Hl Hd53. specialize (Hrx Hl Hd53). lia.
Qed.

Lemma pow2_pos (n : Z) : 0 <= n -> 0 < 2 ^ n.
Proof. intros H. apply Z.pow_pos_nonneg; lia. Qed.

Lemma pow2_split (a b : Z) : 0 <= a -> 0 <= b -> 2 ^ (a + b) = 2 ^ a * 2 ^ b.
Proof. intros. apply Z.pow_add_r; assumption. Qed.

(** [binary_round] on a positive integer [N] scaled by [2^ez]: the result
    is regular, off by at most the weight of the bits that had to go,
    and exact when [N] fits in 53 bits. *)
Lemma round_regular (N : positive) (ez : Z) :
  let d := Z.pos (digits2_pos N) in
  -1074 <= ez -> -1074 <= ez + d - 53 -> ez + d <= 1023 ->
  exists m' e',
    binary_round prec emax false N ez = S754_finite false m' e'
    /\ 2 ^ 52 <= Z.pos m' < 2 ^ 53
    /\ -1074 <= e' <= 971
    /\ Z.abs (Z.pos m' * 2 ^ (e' + 1074) - Z.pos N * 2 ^ (ez + 1074))
       <= 2 ^ (ez + d - 53 + 1074)
    /\ (d <= 53 -> Z.pos m' * 2 ^ (e' + 1074) = Z.pos N * 2 ^ (ez + 1074)).
Proof.
  intros d Hez Hlo Hhi.
  pose proof (digits_bounds N) as [Hdl Hdh]. fold d in Hdl, Hdh.
  assert (Hdpos : 1 <= d) by (subst d; lia).
  unfold binary_round.
  assert (Hf : fexp prec emax (Z.pos (digits2_pos N) + ez) = ez + d - 53).
  { unfold fexp, SpecFloat.emin, prec, emax. fold d. lia. }
  rewrite Hf. unfold shl_align.
  replace (ez + d - 53 - ez) with (d - 53) by lia.
  destruct (d - 53) as [|p|p] eqn:Hp.
  - (* exactly 53 bits *)
    destruct (round_aux_regular N ez loc_Exact) as (m' & e' & E & Hm & He & _ & Hx);
      fold d; try lia.
    fold d in He, Hx. destruct (Hx eq_refl ltac:(lia)) as [-> ->].
    exists N, ez. split; [exact E|]. split; [lia|]. split; [lia|].
    split; [|reflexivity].
    rewrite Z.sub_diag. cbn [Z.abs]. apply Z.lt_le_incl, pow2_pos. lia.
  - (* more than 53 bits: the rounding proper *)
    destruct (round_aux_regular N ez loc_Exact) as (m' & e' & E & Hm & He & Hv & _);
      fold d; try lia.
    fold d in He, Hv. rewrite Hp in Hv.
    exists m', e'. split; [exact E|]. split; [lia|]. split; [lia|].
    split; [|lia].
    replace (e' + 1074) with ((e' - ez) + (ez + 1074)) by lia.
    replace (ez + d - 53 + 1074) with (Z.pos p + (ez + 1074)) by lia.
    rewrite (pow2_split (e' - ez) (ez + 1074)), (pow2_split (Z.pos p) (ez + 1074)) by lia.
    pose proof (pow2_pos (ez + 1074) ltac:(lia)) as Hu.
    set (u := 2 ^ (ez + 1074)) in *. clearbody u.
    set (V := Z.pos m' * 2 ^ (e' - ez)) in *.
    rewrite Z.mul_assoc. fold V. clearbody V.
    set (w := 2 ^ Z.pos p) in *. clearbody w.
    rewrite <- Z.mul_sub_distr_r, Z.abs_mul, (Z.abs_eq u) by lia.
    apply Z.mul_le_mono_nonneg_r; lia.
  - (* fewer than 53 bits: the mantissa is shifted up, exactly *)
    set (mz := Pos.iter xO N p).
    assert (Hmz : Z.pos mz = Z.pos N * 2 ^ Z.pos p) by apply iter_xO.
    assert (Hk : Z.pos p = 53 - d) by lia.
    pose proof (pow2_pos (Z.pos p) ltac:(lia)) as Hw.
    assert (Hdz : Z.pos (digits2_pos mz) = 53).
    { apply digits_unique. rewrite Hmz. change (53 - 1) with 52.
      assert (E1 : 2 ^ 52 = 2 ^ (d - 1) * 2 ^ Z.pos p)
        by (rewrite <- pow2_split by lia; f_equal; lia).
      assert (E2 : 2 ^ 53 = 2 ^ d * 2 ^ Z.pos p)
        by (rewrite <- pow2_split by lia; f_equal; lia).
      rewrite E1, E2. nia. }
    destruct (round_aux_regular mz (ez + d - 53) loc_Exact)
      as (m' & e' & E & Hm & He & _ & Hx); rewrite ?Hdz; try lia.
    rewrite Hdz in Hx. destruct (Hx eq_refl eq_refl) as [-> ->].
    exists mz, (ez + d - 53). split; [exact E|]. split; [lia|]. split; [lia|].
    assert (Hval : Z.pos mz * 2 ^ (ez + d - 53 + 1074) = Z.pos N * 2 ^ (ez + 1074)).
    { rewrite Hmz.
      replace (ez + 1074) with (Z.pos p + (ez + d - 53 + 1074)) by lia.
      rewrite (pow2_split (Z.pos p) (ez + d - 53 + 1074)) by lia. ring. }
    split; [|intros _; exact Hval].
    rewrite Hval, Z.sub_diag. cbn [Z.abs]. apply Z.lt_le_incl, pow2_pos. lia.
Qed.

Lemma regular_scaled_nonneg (x : number) : regular x -> 0 <= scaled x.
Proof.
  destruct x as [s|s| |s m e]; cbn [regular scaled]; try lia.
  intros (-> & Hm & He). pose proof (pow2_pos (e + 1074) ltac:(lia)). nia.
Qed.

(** Addition of two regular numbers whose sum stays below [2^k] units:
    the result is regular and off by at most [2^(k-53)] units. *)
Lemma add_regular (x y : number) (k : Z) :
  regular x -> regular y ->
  k <= 2097 ->
  scaled x + scaled y < 2 ^ k ->
  regular (x + y)%js
  /\ Z.abs (scaled (x + y)%js - (scaled x + scaled y)) <= 2 ^ (k - 53).
Proof.
  intros Hx Hy Hk Hsum.
  pose proof (regular_scaled_nonneg x Hx) as Hx0.
  pose proof (regular_scaled_nonneg y Hy) as Hy0.
  assert (Hk0 : 0 <= 2 ^ (k - 53)) by (apply Z.pow_nonneg; lia).
  destruct x as [sx|sx| |sx mx ex]; try contradiction;
    destruct y as [sy|sy| |sy my ey]; try contradiction.
  - cbn [regular] in Hx, Hy. subst sx sy. cbn. split; [reflexivity|lia].
  - cbn [regular] in Hx. subst sx. unfold add. cbn [SFadd].
    split; [exact Hy|]. cbn [scaled] in *. lia.
  - cbn [regular] in Hy. subst sy. unfold add. cbn [SFadd].
    split; [exact Hx|]. cbn [scaled] in *. lia.
  - destruct Hx as (-> & Hmx & Hex). destruct Hy as (-> & Hmy & Hey).
    cbn [scaled] in *. rewrite !Z.mul_1_l in *.
    unfold add. cbn [SFadd cond_Zopp].
    set (ez := Z.min ex ey).
    set (a := fst (shl_align mx ex ez)). set (b := fst (shl_align my ey ez)).
    assert (Ha : Z.pos a = Z.pos mx * 2 ^ (ex - ez))
      by (apply shl_align_value; subst ez; lia).
    assert (Hb : Z.pos b = Z.pos my * 2 ^ (ey - ez))
      by (apply shl_align_value; subst ez; lia).
    change (Z.pos a + Z.pos b) with (Z.pos (a + b)). cbn [binary_normalize].
    assert (Hez : -1074 <= ez <= 971) by (subst ez; lia).
    pose proof (pow2_pos (ez + 1074) ltac:(lia)) as Hu.
    assert (HN : Z.pos (a + b) * 2 ^ (ez + 1074)
                 = Z.pos mx * 2 ^ (ex + 1074) + Z.pos my * 2 ^ (ey + 1074)).
    { rewrite Pos2Z.inj_add, Ha, Hb.
      replace (ex + 1074) with ((ex - ez) + (ez + 1074)) by lia.
      replace (ey + 1074) with ((ey - ez) + (ez + 1074)) by lia.
      rewrite (pow2_split (ex - ez) (ez + 1074)), (pow2_split (ey - ez) (ez + 1074))
        by (subst ez; lia).
      ring. }
    pose proof (digits_bounds (a + b)) as [Hdl Hdh].
    set (d := Z.pos (digits2_pos (a + b))) in *.
    assert (H52 : 2 ^ 52 <= Z.pos (a + b)).
    { rewrite Pos2Z.inj_add, Ha, Hb.
      pose proof (pow2_pos (ex - ez) ltac:(subst ez; lia)).
      pose proof (pow2_pos (ey - ez) ltac:(subst ez; lia)). nia. }
    assert (Hd53 : 53 <= d).
    { destruct (Z.lt_ge_cases d 53) as [H|H]; [|exact H].
      assert (2 ^ d <= 2 ^ 52) by (apply Z.pow_le_mono_r; lia). lia. }
    assert (Hdk : d - 1 + (ez + 1074) < k).
    { destruct (Z.lt_ge_cases (d - 1 + (ez + 1074)) k) as [H|H]; [exact H|].
      assert (2 ^ k <= 2 ^ (d - 1 + (ez + 1074))) by (apply Z.pow_le_mono_r; lia).
      rewrite pow2_split in H0 by lia. nia. }
    destruct (round_regular (a + b) ez) as (m' & e' & E & Hm & He & Hv & _);
      fold d; try lia.
    fold d in Hv. rewrite E. split; [cbn [regular]; auto|].
    cbn [scaled]. rewrite Z.mul_1_l, <- HN.
    assert (2 ^ (ez + d - 53 + 1074) <= 2 ^ (k - 53))
      by (apply Z.pow_le_mono_r; lia).
    lia.
Qed.

(** *** The order of regular numbers is the order of their values *)

Lemma lt_regular (x y : number) :
  regular x -> regular y -> (x <? y)%js = (scaled x <? scaled y).
Proof.
  intros Hx Hy.
  destruct x as [sx|sx| |sx mx ex]; try contradiction;
    destruct y as [sy|sy| |sy my ey]; try contradiction;
    cbn [regular] in Hx, Hy.
  - reflexivity.
  - destruct Hy as (-> & Hm & He). cbn [scaled]. unfold lt, SFltb. cbn [SFcompare].
    pose proof (pow2_pos (ey + 1074) ltac:(lia)). symmetry. apply Z.ltb_lt. nia.
  - destruct Hx as (-> & Hm & He). cbn [scaled]. unfold lt, SFltb. cbn [SFcompare].
    pose proof (pow2_pos (ex + 1074) ltac:(lia)). symmetry. apply Z.ltb_ge. nia.
  - destruct Hx as (-> & Hmx & Hex). destruct Hy as (-> & Hmy & Hey).
    cbn [scaled]. rewrite !Z.mul_1_l. unfold lt, SFltb. cbn [SFcompare].
    change (Pos.compare_cont Eq mx my) with (Pos.compare mx my).
    pose proof (pow2_pos (ex + 1074) ltac:(lia)) as Hux.
    pose proof (pow2_pos (ey + 1074) ltac:(lia)) as Huy.
    destruct (Z.compare_spec ex ey) as [->|Hlt|Hgt].
    + destruct (Pos.compare_spec mx my) as [->|H|H]; symmetry.
      * apply Z.ltb_irrefl.
      * apply Z.ltb_lt. apply Z.mul_lt_mono_pos_r; lia.
      * apply Z.ltb_ge. apply Z.mul_le_mono_nonneg_r; lia.
    + symmetry. apply Z.ltb_lt.
      replace (ey + 1074) with ((ey - ex) + (ex + 1074)) by lia.
      rewrite (pow2_split (ey - ex) (ex + 1074)) by lia.
      assert (Hp : 2 ^ 1 <= 2 ^ (ey - ex)) by (apply Z.pow_le_mono_r; lia).
      rewrite Z.pow_1_r in Hp.
      set (p := 2 ^ (ey - ex)) in *. set (u := 2 ^ (ex + 1074)) in *.
      clearbody p u.
      assert (Z.pos mx * u < 2 ^ 53 * u) by (apply Z.mul_lt_mono_pos_r; lia).
      assert (2 ^ 53 * u <= Z.pos my * 2 * u) by (apply Z.mul_le_mono_nonneg_r; lia).
      assert (Z.pos my * 2 * u <= Z.pos my * p * u)
        by (apply Z.mul_le_mono_nonneg_r; [lia|apply Z.mul_le_mono_nonneg_l; lia]).
      lia.
    + symmetry. apply Z.ltb_ge.
      replace (ex + 1074) with ((ex - ey) + (ey + 1074)) by lia.
      rewrite (pow2_split (ex - ey) (ey + 1074)) by lia.
      assert (Hp : 2 ^ 1 <= 2 ^ (ex - ey)) by (apply Z.pow_le_mono_r; lia).
      rewrite Z.pow_1_r in Hp.
      set (p := 2 ^ (ex - ey)) in *. set (u := 2 ^ (ey + 1074)) in *.
      clearbody p u.
      assert (Z.pos my * u < 2 ^ 53 * u) by (apply Z.mul_lt_mono_pos_r; lia).
      assert (2 ^ 53 * u <= Z.pos mx * 2 * u) by (apply Z.mul_le_mono_nonneg_r; lia).
      assert (Z.pos mx * 2 * u <= Z.pos mx * p * u)
        by (apply Z.mul_le_mono_nonneg_r; [lia|apply Z.mul_le_mono_nonneg_l; lia]).
      lia.
Qed.

(** *** The luminance of a pixel *)

Lemma pow2_1074 : 2 ^ 1074 = 2 ^ 45 * 2 ^ 1029.
Proof. change 1074 with (45 + 1029). apply pow2_split; lia. Qed.

(** Each product of the formula is within [2^-45] of its exact value. *)
Lemma product_regular (c : number) (w v : Z) :
  (c = c0_299 /\ w = 299) \/ (c = c0_587 /\ w = 587) \/ (c = c0_114 /\ w = 114) ->
  0 <= v <= 255 ->
  regular (c * #v)%js
  /\ Z.abs (1000 * scaled (c * #v)%js - w * v * 2 ^ 1074) <= 1000 * 2 ^ 1029.
Proof.
  intros Hc Hv.
  assert (Hshape : productShape c w v = true).
  { apply (forallb_Zrange (productShape c w) 0 256); [|lia].
    destruct Hc as [[-> ->]|[[-> ->]|[-> ->]]]; vm_compute; reflexivity. }
  unfold productShape in Hshape.
  assert (HU : 0 < 2 ^ 1018) by (apply pow2_pos; lia).
  assert (E1 : 2 ^ 1074 = 2 ^ 56 * 2 ^ 1018)
    by (change 1074 with (56 + 1018); apply pow2_split; lia).
  assert (E2 : 2 ^ 1029 = 2 ^ 11 * 2 ^ 1018)
    by (change 1029 with (11 + 1018); apply pow2_split; lia).
  destruct (c * #v)%js as [s|s| |s m e]; try discriminate Hshape.
  - apply andb_prop in Hshape. destruct Hshape as [Hs H0].
    apply negb_true_iff in Hs. apply Z.eqb_eq in H0. subst s v.
    split; [reflexivity|]. cbn [scaled]. rewrite E2.
    set (U := 2 ^ 1018) in *. clearbody U.
    replace (1000 * 0 - w * 0 * 2 ^ 1074) with 0 by ring. cbn [Z.abs]. lia.
  - repeat (apply andb_prop in Hshape; destruct Hshape as [Hshape ?]).
    apply negb_true_iff in Hshape. subst s.
    repeat match goal with
           | H : (_ <=? _) = true |- _ => apply Z.leb_le in H
           | H : (_ <? _) = true |- _ => apply Z.ltb_lt in H
           end.
    split; [cbn [regular]; repeat split; lia|].
    cbn [scaled]. rewrite Z.mul_1_l.
    replace (e + 1074) with ((e + 56) + 1018) by lia.
    rewrite (pow2_split (e + 56) 1018), E1, E2 by lia.
    set (U := 2 ^ 1018) in *. clearbody U.
    set (M := Z.pos m * 2 ^ (e + 56)) in *.
    replace (1000 * (Z.pos m * (2 ^ (e + 56) * U)) - w * v * (2 ^ 56 * U))
      with ((1000 * M - w * v * 2 ^ 56) * U) by (subst M; ring).
    rewrite Z.abs_mul, (Z.abs_eq U) by lia.
    replace (1000 * (2 ^ 11 * U)) with (1000 * 2 ^ 11 * U) by ring.
    apply Z.mul_le_mono_nonneg_r; lia.
Qed.

Lemma pow2_1083 : 2 ^ 1083 = 2 ^ 54 * 2 ^ 1029.
Proof. change 1083 with (54 + 1029). apply pow2_split; lia. Qed.

Lemma pow2_1030 : 2 ^ 1030 = 2 * 2 ^ 1029.
Proof. change 1030 with (1 + 1029). rewrite pow2_split by lia. reflexivity. Qed.

(** The luminance the code computes for a pixel of bytes is a regular
    number within [7 * 2^-45] of [0.299 R + 0.587 G + 0.114 B]. *)
Lemma luminance_accuracy (r g b : Z) :
  0 <= r <= 255 -> 0 <= g <= 255 -> 0 <= b <= 255 ->
  regular (luminance #r #g #b)%js
  /\ Z.abs (1000 * scaled (luminance #r #g #b)%js
            - (299 * r + 587 * g + 114 * b) * 2 ^ 1074) <= 7000 * 2 ^ 1029.
Proof.
  intros Hr Hg Hb. unfold luminance.
  destruct (product_regular c0_299 299 r) as [R1 A1];
    [left; split; reflexivity|lia|].
  destruct (product_regular c0_587 587 g) as [R2 A2];
    [right; left; split; reflexivity|lia|].
  destruct (product_regular c0_114 114 b) as [R3 A3];
    [right; right; split; reflexivity|lia|].
  pose proof (regular_scaled_nonneg _ R1) as N1.
  pose proof (regular_scaled_nonneg _ R2) as N2.
  pose proof (regular_scaled_nonneg _ R3) as N3.
  set (p1 := (c0_299 * #r)%js) in *. set (p2 := (c0_587 * #g)%js) in *.
  set (p3 := (c0_114 * #b)%js) in *.
  assert (HU : 0 < 2 ^ 1029) by (apply pow2_pos; lia).
  assert (Hbytes : forall U, 0 < U ->
            0 <= r * U <= 255 * U /\ 0 <= g * U <= 255 * U /\ 0 <= b * U <= 255 * U)
    by (intros U HU0; nia).
  assert (S12 : scaled p1 + scaled p2 < 2 ^ 1083).
  { rewrite pow2_1083. rewrite pow2_1074 in A1, A2.
    set (U := 2 ^ 1029) in *. clearbody U. specialize (Hbytes U HU). lia. }
  destruct (add_regular p1 p2 1083 R1 R2 ltac:(lia) S12) as [R12 A12].
  change (1083 - 53) with 1030 in A12.
  pose proof (regular_scaled_nonneg _ R12) as N12.
  set (s12 := (p1 + p2)%js) in *.
  assert (S123 : scaled s12 + scaled p3 < 2 ^ 1083).
  { rewrite pow2_1083. rewrite pow2_1074 in A1, A2, A3. rewrite pow2_1030 in A12.
    set (U := 2 ^ 1029) in *. clearbody U. specialize (Hbytes U HU). lia. }
  destruct (add_regular s12 p3 1083 R12 R3 ltac:(lia) S123) as [R A].
  change (1083 - 53) with 1030 in A.
  split; [exact R|].
  rewrite pow2_1074 in *. rewrite pow2_1030 in *.
  set (U := 2 ^ 1029) in *. clearbody U. specialize (Hbytes U HU). lia.
Qed.

(** *** The byte store *)

(** Rounding to the nearest integer moves a value by half a unit at
    most. *)
Lemma roundHalfEven_near (m : positive) (e : Z) :
  -1074 <= e ->
  2 * Z.abs (roundHalfEven m e * 2 ^ 1074 - Z.pos m * 2 ^ (e + 1074)) <= 2 ^ 1074.
Proof.
  intros He. pose proof (pow2_pos 1074 ltac:(lia)) as HU.
  unfold roundHalfEven. destruct e as [|p|p].
  - rewrite Z.pow_0_r, Z.mul_1_r, Z.add_0_l, Z.sub_diag. cbn [Z.abs]. lia.
  - rewrite (pow2_split (Z.pos p) 1074) by lia.
    replace (Z.pos m * 2 ^ Z.pos p * 2 ^ 1074 - Z.pos m * (2 ^ Z.pos p * 2 ^ 1074))
      with 0 by ring.
    cbn [Z.abs]. lia.
  - change (Z.pow_pos 2 p) with (2 ^ Z.pos p).
    assert (Hd : 0 < 2 ^ Z.pos p) by (apply pow2_pos; lia).
    assert (E : 2 ^ 1074 = 2 ^ Z.pos p * 2 ^ (Z.neg p + 1074)).
    { rewrite <- pow2_split by lia. f_equal. lia. }
    pose proof (pow2_pos (Z.neg p + 1074) ltac:(lia)) as Hu.
    pose proof (Z_div_mod_eq_full (Z.pos m) (2 ^ Z.pos p)) as Hdiv.
    pose proof (Z.mod_pos_bound (Z.pos m) (2 ^ Z.pos p) Hd) as Hmod.
    set (d := 2 ^ Z.pos p) in *. set (u := 2 ^ (Z.neg p + 1074)) in *.
    set (q := Z.pos m / d) in *. set (r := Z.pos m mod d) in *.
    rewrite E. clearbody d u q r.
    assert (Hy : forall y, 2 * Z.abs (y * d - Z.pos m) <= d ->
                   2 * Z.abs (y * (d * u) - Z.pos m * u) <= d * u).
    { intros y H.
      replace (y * (d * u) - Z.pos m * u) with ((y * d - Z.pos m) * u) by ring.
      rewrite Z.abs_mul, (Z.abs_eq u) by lia.
      rewrite Z.mul_assoc. apply Z.mul_le_mono_nonneg_r; lia. }
    apply Hy.
    destruct (Z.compare_spec (2 * r) d) as [H|H|H];
      [destruct (Z.even q)| |]; nia.
Qed.

Lemma Math_max_zero_regular (x : number) :
  regular x -> Math_max #0%js x = x.
Proof.
  destruct x as [s|s| |s m e]; try contradiction; cbn [regular].
  - intros ->. reflexivity.
  - intros (-> & _). reflexivity.
Qed.

Lemma le_unscale (a b U : Z) : 0 < U -> a * U <= b * U -> a <= b.
Proof. intros HU H. now apply Z.mul_le_mono_pos_r in H. Qed.

Lemma abs_unscale (a b U : Z) : 0 < U -> Z.abs (a * U) <= b * U -> Z.abs a <= b.
Proof.
  intros HU H. rewrite Z.abs_mul, (Z.abs_eq U) in H by lia.
  now apply Z.mul_le_mono_pos_r in H.
Qed.

(** Storing a regular number that is within [7 * 2^-45] of [t / 1000],
    for [t / 1000] up to 255: the byte is a nearest integer of
    [t / 1000]. *)
Lemma store_regular (x : number) (t : Z) :
  regular x ->
  0 <= t <= 255000 ->
  Z.abs (1000 * scaled x - t * 2 ^ 1074) <= 7000 * 2 ^ 1029 ->
  Z.abs (1000 * store x - t) <= 500.
Proof.
  intros Hx Ht Hacc.
  assert (HU : 0 < 2 ^ 1029) by (apply pow2_pos; lia).
  assert (R255 : regular #255%js) by (vm_compute; repeat split; discriminate).
  assert (S255 : scaled #255%js = 255 * 2 ^ 1074).
  { replace #255%js with (S754_finite false 8972014882652160 (-45))
      by (vm_compute; reflexivity).
    cbn [scaled]. change (-45 + 1074) with 1029. rewrite pow2_1074. ring. }
  unfold store, clamp.
  destruct (Math_min_cases #255%js x) as [E|[[E H]|[E H]]].
  - apply Math_min_NaN in E. destruct E as [E|E]; [discriminate E|].
    subst x. contradiction.
  - rewrite E, Math_max_zero_regular by assumption.
    rewrite lt_regular, S255 in H by assumption. apply Z.ltb_ge in H.
    destruct x as [s|s| |s m e]; try contradiction; cbn [regular] in Hx.
    + subst s. cbn [ToUint8Clamp]. cbn [scaled] in Hacc.
      rewrite pow2_1074 in Hacc. set (U := 2 ^ 1029) in *. clearbody U.
      assert (Z.abs (t * 2 ^ 45) <= 7000) by (apply (abs_unscale _ _ U HU); lia).
      lia.
    + destruct Hx as (-> & Hm & He). cbn [ToUint8Clamp].
      pose proof (roundHalfEven_near m e ltac:(lia)) as Hnear.
      cbn [scaled] in Hacc, H. rewrite Z.mul_1_l in Hacc, H.
      set (y := roundHalfEven m e) in *. clearbody y.
      set (v := Z.pos m * 2 ^ (e + 1074)) in *. clearbody v.
      rewrite pow2_1074 in *. set (U := 2 ^ 1029) in *. clearbody U.
      assert (Z.abs ((1000 * y - t) * 2 ^ 45) <= 500 * 2 ^ 45 + 7000)
        by (apply (abs_unscale _ _ U HU); lia).
      assert (2 * y * 2 ^ 45 <= 511 * 2 ^ 45)
        by (apply (le_unscale _ _ U HU); lia).
      lia.
  - rewrite E, Math_max_zero_regular by assumption.
    rewrite lt_regular, S255 in H by assumption. apply Z.ltb_ge in H.
    replace (ToUint8Clamp #255%js) with 255 by (vm_compute; reflexivity).
    rewrite pow2_1074 in *. set (U := 2 ^ 1029) in *. set (v := scaled x) in *.
    clearbody U v.
    assert (255000 * 2 ^ 45 - 7000 <= t * 2 ^ 45)
      by (apply (le_unscale _ _ U HU); lia).
    lia.
Qed.

(** *** Grayscale *)

Lemma grayscale_channel (r g b : Z) :
  isByte r -> isByte g -> isByte b ->
  Z.abs (1000 * store (luminance #r #g #b)%js - (299 * r + 587 * g + 114 * b)) <= 500.
Proof.
  unfold isByte. intros Hr Hg Hb.
  destruct (luminance_accuracy r g b Hr Hg Hb) as [Hreg Hacc].
  apply store_regular; [exact Hreg|lia|exact Hacc].
Qed.

Lemma grayscale_loop_nearest factor (buf : list Z) :
  Forall isByte buf ->
  Forall2 nearestLuminance (rgbaPixels buf)
    (rgbaPixels (forEachPixel (filterPixel true #1%js #0%js factor) buf)).
Proof.
  induction buf as [|r|r g|r g b|r g b a rest IH] using quad_ind;
    intros Hbuf; cbn [forEachPixel]; rewrite ?filterPixel_grayscale_only;
    cbv beta iota zeta; cbn [rgbaPixels ToNumber]; try constructor.
  - inversion Hbuf as [|? ? Hr Hb1]; subst.
    inversion Hb1 as [|? ? Hg Hb2]; subst.
    inversion Hb2 as [|? ? Hb Hb3]; subst.
    unfold nearestLuminance, luminanceThousandths.
    split; [reflexivity|]. split; [reflexivity|].
    split; [now apply grayscale_channel|reflexivity].
  - apply IH.
    inversion Hbuf as [|? ? _ Hb1]; subst.
    inversion Hb1 as [|? ? _ Hb2]; subst.
    inversion Hb2 as [|? ? _ Hb3]; subst.
    now inversion Hb3.
Qed.

(** C6.  With [{grayscale: true, contrast: 1.0, brightness: 0,
    sharpen: 0}], for every frame of bytes, every pixel of the output has
    its R, G and B set to one and the same byte, the luminance
    [0.299R + 0.587G + 0.114B] of the input pixel to the precision of a
    byte (a nearest integer, at most half a unit away from the exact
    value), and its alpha unchanged; the buffer keeps its length. *)
Theorem grayscale_channels_are_nearest_luminance (buf : list Z) :
  Forall isByte buf ->
  List.length (applyFiltersData buf grayscaleOnly) = List.length buf
  /\ Forall2 nearestLuminance (rgbaPixels buf)
       (rgbaPixels (applyFiltersData buf grayscaleOnly)).
Proof.
  intros Hbuf. rewrite applyFiltersData_grayscaleOnly. split.
  - apply forEachPixel_length.
  - now apply grayscale_loop_nearest.
Qed.

Lemma grayscale_channels_are_nearest_luminance_witness :
  Forall isByte [200; 100; 50; 255; 1; 0; 0; 7]
  /\ rgbaPixels (applyFiltersData [200; 100; 50; 255; 1; 0; 0; 7] grayscaleOnly)
     = [(124, 124, 124, 255); (0, 0, 0, 7)]
  /\ Forall2 nearestLuminance (rgbaPixels [200; 100; 50; 255; 1; 0; 0; 7])
       (rgbaPixels (applyFiltersData [200; 100; 50; 255; 1; 0; 0; 7] grayscaleOnly)).
Proof.
  assert (H : Forall isByte [200; 100; 50; 255; 1; 0; 0; 7])
    by (repeat constructor; unfold isByte; lia).
  split; [exact H|]. split; [vm_compute; reflexivity|].
  apply (grayscale_channels_are_nearest_luminance [200; 100; 50; 255; 1; 0; 0; 7]). exact H.
Defined.

(** *** The sum over the window *)

Lemma pow2_1094 : 2 ^ 1094 = 2 ^ 65 * 2 ^ 1029.
Proof. change 1094 with (65 + 1029). apply pow2_split; lia. Qed.

Lemma pow2_1041 : 2 ^ 1041 = 2 ^ 12 * 2 ^ 1029.
Proof. change 1041 with (12 + 1029). apply pow2_split; lia. Qed.

Lemma Forall_quad (P : Z -> Prop) (r g b a : Z) (rest : list Z) :
  Forall P (r :: g :: b :: a :: rest) -> P r /\ P g /\ P b /\ P a /\ Forall P rest.
Proof.
  intros H.
  inversion H as [|? ? Hr H1]; subst. inversion H1 as [|? ? Hg H2]; subst.
  inversion H2 as [|? ? Hb H3]; subst. inversion H3 as [|? ? Ha H4]; subst.
  auto.
Qed.

(** One step of the loop adds the luminance of a pixel with an error of
    [2^-33] for the addition and [7 * 2^-45] for the luminance. *)
Lemma brightness_step (acc : number) (r g b : Z) :
  isByte r -> isByte g -> isByte b ->
  regular acc ->
  scaled acc + 256 * 2 ^ 1074 <= 2 ^ 1094 ->
  let acc' := (acc + luminance #r #g #b)%js in
  regular acc'
  /\ scaled acc' <= scaled acc + 256 * 2 ^ 1074
  /\ Z.abs (1000 * scaled acc' - 1000 * scaled acc
            - (299 * r + 587 * g + 114 * b) * 2 ^ 1074) <= 4103000 * 2 ^ 1029.
Proof.
  intros Hr Hg Hb Hacc Hroom. cbv zeta. unfold isByte in Hr, Hg, Hb.
  destruct (luminance_accuracy r g b Hr Hg Hb) as [HL AL].
  pose proof (regular_scaled_nonneg _ Hacc) as N0.
  pose proof (regular_scaled_nonneg _ HL) as NL.
  set (L := (luminance #r #g #b)%js) in *.
  assert (HU : 0 < 2 ^ 1029) by (apply pow2_pos; lia).
  assert (Hbytes : 0 <= r * 2 ^ 1029 <= 255 * 2 ^ 1029
                   /\ 0 <= g * 2 ^ 1029 <= 255 * 2 ^ 1029
                   /\ 0 <= b * 2 ^ 1029 <= 255 * 2 ^ 1029) by nia.
  assert (Hsum : scaled acc + scaled L < 2 ^ 1094).
  { rewrite pow2_1094 in *. rewrite pow2_1074 in *.
    set (U := 2 ^ 1029) in *. clearbody U. lia. }
  destruct (add_regular acc L 1094 Hacc HL ltac:(lia) Hsum) as [R A].
  change (1094 - 53) with 1041 in A.
  split; [exact R|].
  rewrite pow2_1074 in *. rewrite pow2_1041 in *.
  set (U := 2 ^ 1029) in *. clearbody U. split; lia.
Qed.

Lemma totalThousandths_nonneg (buf : list Z) :
  Forall isByte buf -> 0 <= totalThousandths (rgbaPixels buf).
Proof.
  induction buf as [|r|r g|r g b|r g b a rest IH] using quad_ind;
    intros Hbuf; cbn [rgbaPixels totalThousandths fold_right]; try lia.
  apply Forall_quad in Hbuf. destruct Hbuf as (Hr & Hg & Hb & _ & Hrest).
  specialize (IH Hrest). unfold totalThousandths in IH.
  unfold luminanceThousandths, isByte in *. lia.
Qed.

(** The loop over [n] pixels of bytes: the total is a regular number,
    and every pixel adds at most [4103 * 2^-45] to its distance from the
    exact total. *)
Lemma brightnessLoop_accuracy (buf : list Z) :
  forall (acc : number) (n : nat),
    List.length buf = (4 * n)%nat ->
    Forall isByte buf ->
    regular acc ->
    scaled acc + Z.of_nat n * (256 * 2 ^ 1074) <= 2 ^ 1094 ->
    regular (brightnessLoop acc buf)
    /\ Z.abs (1000 * scaled (brightnessLoop acc buf) - 1000 * scaled acc
              - totalThousandths (rgbaPixels buf) * 2 ^ 1074)
       <= Z.of_nat n * (4103000 * 2 ^ 1029).
Proof.
  induction buf as [|r|r g|r g b|r g b a rest IH] using quad_ind;
    intros acc n Hlen Hbuf Hacc Hroom; cbn [List.length] in Hlen; try lia.
  - cbn [brightnessLoop rgbaPixels totalThousandths fold_right].
    split; [exact Hacc|].
    replace (1000 * scaled acc - 1000 * scaled acc - 0 * 2 ^ 1074) with 0 by ring.
    cbn [Z.abs]. assert (0 < 2 ^ 1029) by (apply pow2_pos; lia). nia.
  - destruct n as [|n]; [lia|].
    apply Forall_quad in Hbuf. destruct Hbuf as (Hr & Hg & Hb & _ & Hrest).
    assert (HU : 0 < 2 ^ 1074) by (apply pow2_pos; lia).
    assert (HV : 0 < 2 ^ 1029) by (apply pow2_pos; lia).
    rewrite Nat2Z.inj_succ in Hroom |- *.
    assert (Hn : 0 <= Z.of_nat n * (256 * 2 ^ 1074)) by nia.
    destruct (brightness_step acc r g b Hr Hg Hb Hacc) as (R1 & B1 & A1); [lia|].
    cbn [brightnessLoop rgbaPixels totalThousandths fold_right luminanceThousandths].
    set (acc' := (acc + luminance #r #g #b)%js) in *.
    destruct (IH acc' n) as [R A]; [lia|exact Hrest|exact R1|lia|].
    split; [exact R|].
    fold (totalThousandths (rgbaPixels rest)).
    set (T := totalThousandths (rgbaPixels rest)) in *.
    set (W := 2 ^ 1074) in *. set (V := 2 ^ 1029) in *.
    set (s := scaled (brightnessLoop acc' rest)) in *.
    clearbody T W V s. lia.
Qed.

(** A window of bytes whose exact total is zero is black, and the loop
    leaves the total at zero. *)
Lemma brightnessLoop_zero (buf : list Z) :
  forall n : nat,
    List.length buf = (4 * n)%nat ->
    Forall isByte buf ->
    totalThousandths (rgbaPixels buf) = 0 ->
    brightnessLoop #0%js buf = #0%js.
Proof.
  induction buf as [|r|r g|r g b|r g b a rest IH] using quad_ind;
    intros n Hlen Hbuf Htot; cbn [List.length] in Hlen; try lia.
  - reflexivity.
  - apply Forall_quad in Hbuf. destruct Hbuf as (Hr & Hg & Hb & _ & Hrest).
    pose proof (totalThousandths_nonneg rest Hrest) as Hnn.
    cbn [rgbaPixels totalThousandths fold_right luminanceThousandths] in Htot.
    fold (totalThousandths (rgbaPixels rest)) in Htot.
    unfold isByte in *.
    assert (r = 0) by lia. assert (g = 0) by lia. assert (b = 0) by lia. subst r g b.
    cbn [brightnessLoop].
    replace (#0 + luminance #0 #0 #0)%js with #0%js by (vm_compute; reflexivity).
    apply (IH (n - 1)%nat); [lia|exact Hrest|lia].
Qed.

(** *** The division by the number of pixels *)

Lemma div_core_2500 (mS : positive) (eS : Z) :
  2 ^ 52 <= Z.pos mS < 2 ^ 53 -> -1062 <= eS <= 900 ->
  exists q r l,
    SFdiv_core_binary prec emax (Z.pos mS) eS 5497558138880000 (-41)
    = (q, eS - 12, l)
    /\ Z.pos mS * 2 ^ 53 = 5497558138880000 * q + r
    /\ 0 <= r < 5497558138880000.
Proof.
  intros Hm He. unfold SFdiv_core_binary. cbv zeta.
  assert (Hd : Zdigits2 (Z.pos mS) = 53) by (cbn [Zdigits2]; apply digits_unique; lia).
  rewrite Hd. change (Zdigits2 5497558138880000) with 53.
  assert (He' : Z.min (fexp prec emax (53 + eS - (53 + -41))) (eS - -41) = eS - 12)
    by (unfold fexp, SpecFloat.emin, prec, emax; lia).
  rewrite He'. replace (eS - -41 - (eS - 12)) with 53 by lia. cbv beta iota.
  rewrite Z.shiftl_mul_pow2 by lia.
  pose proof (Z_div_mod (Z.pos mS * 2 ^ 53) 5497558138880000 ltac:(lia)) as H.
  destruct (Z.div_eucl (Z.pos mS * 2 ^ 53) 5497558138880000) as [q r].
  exists q, r. eexists. split; [reflexivity|exact H].
Qed.

Lemma ofZ_2500 : #2500%js = S754_finite false 5497558138880000 (-41).
Proof. vm_compute. reflexivity. Qed.

(** Dividing a total between [2^-10] and [2^20] by 2500: the quotient is
    regular and, times 2500, within [7500 * 2^-45] of the total. *)
Lemma div_2500_accuracy (total : number) :
  regular total ->
  2 ^ 1064 <= scaled total < 2 ^ 1094 ->
  regular (total / #2500)%js
  /\ Z.abs (2500 * scaled (total / #2500)%js - scaled total) <= 7500 * 2 ^ 1029.
Proof.
  intros HS [Hlo Hhi].
  assert (H64 : 0 < 2 ^ 1064) by (apply pow2_pos; lia).
  destruct total as [s|s| |s mS eS]; cbn [regular scaled] in *;
    try contradiction; try (exfalso; lia).
  destruct HS as (-> & Hm & He). rewrite Z.mul_1_l in *.
  assert (He1 : -62 <= eS).
  { destruct (Z.lt_ge_cases eS (-62)) as [H|H]; [|exact H]. exfalso.
    assert (2 ^ (eS + 1074) <= 2 ^ 1011) by (apply Z.pow_le_mono_r; lia).
    assert (E : 2 ^ 1064 = 2 ^ 53 * 2 ^ 1011)
      by (change 1064 with (53 + 1011); apply pow2_split; lia).
    pose proof (pow2_pos (eS + 1074) ltac:(lia)).
    rewrite E in Hlo.
    set (u := 2 ^ (eS + 1074)) in *. set (w := 2 ^ 1011) in *. clearbody u w.
    assert (Z.pos mS * u < 2 ^ 53 * u) by (apply Z.mul_lt_mono_pos_r; lia).
    assert (2 ^ 53 * u <= 2 ^ 53 * w) by (apply Z.mul_le_mono_nonneg_l; lia).
    lia. }
  assert (He2 : eS <= -33).
  { destruct (Z.lt_ge_cases (-33) eS) as [H|H]; [|lia]. exfalso.
    assert (2 ^ 1042 <= 2 ^ (eS + 1074)) by (apply Z.pow_le_mono_r; lia).
    assert (E : 2 ^ 1094 = 2 ^ 52 * 2 ^ 1042)
      by (change 1094 with (52 + 1042); apply pow2_split; lia).
    assert (0 < 2 ^ 1042) by (apply pow2_pos; lia).
    rewrite E in Hhi.
    set (u := 2 ^ (eS + 1074)) in *. set (w := 2 ^ 1042) in *. clearbody u w.
    assert (2 ^ 52 * u <= Z.pos mS * u) by (apply Z.mul_le_mono_nonneg_r; lia).
    assert (2 ^ 52 * w <= 2 ^ 52 * u) by (apply Z.mul_le_mono_nonneg_l; lia).
    lia. }
  unfold div. rewrite ofZ_2500. cbn [SFdiv xorb].
  destruct (div_core_2500 mS eS Hm ltac:(lia)) as (q & r & l & -> & Hqr & Hr).
  assert (Hq : 2 ^ 52 <= q < 2 ^ 54) by lia.
  destruct q as [|pq|pq]; try lia.
  pose proof (digits_bounds pq) as [Hdl Hdh].
  set (d := Z.pos (digits2_pos pq)) in *.
  assert (Hd : 53 <= d <= 54).
  { split.
    - destruct (Z.lt_ge_cases d 53) as [H|H]; [|exact H]. exfalso.
      assert (2 ^ d <= 2 ^ 52) by (apply Z.pow_le_mono_r; lia). lia.
    - destruct (Z.lt_ge_cases 54 d) as [H|H]; [|exact H]. exfalso.
      assert (2 ^ 54 <= 2 ^ (d - 1)) by (apply Z.pow_le_mono_r; lia). lia. }
  destruct (round_aux_regular pq (eS - 12) l) as (m3 & e3 & E & Hm3 & He3 & Hv & _);
    fold d; try lia.
  fold d in He3, Hv. rewrite E.
  split; [cbn [regular]; repeat split; lia|].
  cbn [scaled]. rewrite Z.mul_1_l.
  assert (Hw : 2 ^ (d - 53) <= 2).
  { change 2 with (2 ^ 1) at 2. apply Z.pow_le_mono_r; lia. }
  assert (Hu : 0 < 2 ^ (eS - 12 + 1074)) by (apply pow2_pos; lia).
  assert (Hu' : 2 ^ (eS - 12 + 1074) <= 2 ^ 1029) by (apply Z.pow_le_mono_r; lia).
  assert (EV : Z.pos m3 * 2 ^ (e3 + 1074)
               = Z.pos m3 * 2 ^ (e3 - (eS - 12)) * 2 ^ (eS - 12 + 1074)).
  { rewrite <- Z.mul_assoc, <- pow2_split by lia. do 2 f_equal. lia. }
  assert (ES : Z.pos mS * 2 ^ (eS + 1074)
               = Z.pos mS * 2 ^ 12 * 2 ^ (eS - 12 + 1074)).
  { rewrite <- Z.mul_assoc, <- pow2_split by lia. do 2 f_equal. lia. }
  rewrite EV, ES. clear EV ES Hlo Hhi H64.
  set (u := 2 ^ (eS - 12 + 1074)) in *.
  set (V := Z.pos m3 * 2 ^ (e3 - (eS - 12))) in *.
  set (w := 2 ^ (d - 53)) in *. set (U := 2 ^ 1029) in *.
  clearbody u V w U.
  assert (H1 : (Z.pos pq - 2) * u < V * u) by (apply Z.mul_lt_mono_pos_r; lia).
  assert (H2 : V * u <= (Z.pos pq + 2) * u) by (apply Z.mul_le_mono_nonneg_r; lia).
  assert (H3 : Z.pos mS * 2 ^ 53 * u = (5497558138880000 * Z.pos pq + r) * u)
    by (now rewrite Hqr).
  assert (H4 : 0 <= r * u < 5497558138880000 * u)
    by (split; [apply Z.mul_nonneg_nonneg; lia|apply Z.mul_lt_mono_pos_r; lia]).
  lia.
Qed.

(** *** The brightness of a window and the threshold *)

Lemma pow2_1042 : 2 ^ 1042 = 2 ^ 13 * 2 ^ 1029.
Proof. change 1042 with (13 + 1029). apply pow2_split; lia. Qed.

Lemma pow2_1064 : 2 ^ 1064 = 2 ^ 35 * 2 ^ 1029.
Proof. change 1064 with (35 + 1029). apply pow2_split; lia. Qed.

Lemma scaled_80 : regular #80%js /\ scaled #80%js = 80 * 2 ^ 1074.
Proof.
  replace #80%js with (S754_finite false 5629499534213120 (-46))
    by (vm_compute; reflexivity).
  split; [cbn [regular]; repeat split; lia|].
  cbn [scaled]. change (-46 + 1074) with 1028.
  change 1074 with (46 + 1028). rewrite pow2_split by lia. ring.
Qed.

Lemma totalThousandths_bound (buf : list Z) :
  forall n : nat,
    List.length buf = (4 * n)%nat -> Forall isByte buf ->
    totalThousandths (rgbaPixels buf) <= Z.of_nat n * 255000.
Proof.
  induction buf as [|r|r g|r g b|r g b a rest IH] using quad_ind;
    intros n Hlen Hbuf; cbn [List.length] in Hlen; try lia.
  - cbn [rgbaPixels totalThousandths fold_right]. lia.
  - apply Forall_quad in Hbuf. destruct Hbuf as (Hr & Hg & Hb & _ & Hrest).
    specialize (IH (n - 1)%nat ltac:(lia) Hrest).
    cbn [rgbaPixels totalThousandths fold_right luminanceThousandths].
    fold (totalThousandths (rgbaPixels rest)).
    unfold isByte in *. lia.
Qed.

(** The brightness of a 50 x 50 window of bytes against its exact mean
    [T / 2500000], [T] being the exact total in thousandths. *)
Lemma window_brightness (buf : list Z) :
  Z.of_nat (List.length buf) = 10000 ->
  Forall isByte buf ->
  let T := totalThousandths (rgbaPixels buf) in
  within 32 (avgBrightness buf) T 2500000
  /\ (T < 200000000 -> (avgBrightness buf <? #80)%js = true)
  /\ (200000000 < T -> (avgBrightness buf <? #80)%js = false).
Proof.
  intros Hlen Hbuf T.
  assert (Hlen' : List.length buf = (4 * 2500)%nat) by lia.
  pose proof (totalThousandths_nonneg buf Hbuf) as HT0.
  pose proof (totalThousandths_bound buf 2500 Hlen' Hbuf) as HT1.
  fold T in HT0, HT1.
  assert (HU : 0 < 2 ^ 1029) by (apply pow2_pos; lia).
  destruct scaled_80 as [R80 S80].
  unfold avgBrightness. rewrite Hlen.
  replace (#10000 / #4)%js with #2500%js by (vm_compute; reflexivity).
  destruct (Z.eq_dec T 0) as [HT|HT].
  - rewrite (brightnessLoop_zero buf 2500 Hlen' Hbuf HT).
    replace (#0 / #2500)%js with (S754_zero false) by (vm_compute; reflexivity).
    split; [|split].
    + split; [reflexivity|]. cbn [scaled]. rewrite HT.
      replace (2500000 * 0 - 0 * 2 ^ 1074) with 0 by ring. cbn [Z.abs].
      apply Z.mul_nonneg_nonneg; [lia|]. apply Z.pow_nonneg; lia.
    + intros _. reflexivity.
    + intros H. lia.
  - destruct (brightnessLoop_accuracy buf #0%js 2500 Hlen' Hbuf) as [RS AS].
    { reflexivity. }
    { change (scaled #0%js) with 0. rewrite pow2_1094, pow2_1074.
      set (U := 2 ^ 1029) in *. clearbody U. lia. }
    change (scaled #0%js) with 0 in AS. fold T in AS.
    set (total := brightnessLoop #0%js buf) in *.
    assert (HTU : 1 * 2 ^ 1029 <= T * 2 ^ 1029 <= 637500000 * 2 ^ 1029)
      by (split; apply Z.mul_le_mono_nonneg_r; lia).
    destruct (div_2500_accuracy total RS) as [RA AA].
    { rewrite pow2_1064, pow2_1094. rewrite pow2_1074 in AS.
      set (U := 2 ^ 1029) in *. clearbody U. lia. }
    set (avg := (total / #2500)%js) in *.
    rewrite !lt_regular, S80 by assumption.
    unfold within. change (1074 - 32) with 1042.
    rewrite pow2_1042. rewrite pow2_1074 in *.
    set (U := 2 ^ 1029) in *. set (a := scaled avg) in *. set (s := scaled total) in *.
    clearbody U a s.
    split; [split; [exact RA|lia]|].
    split; intros H.
    + assert (T * U <= 199999999 * U) by (apply Z.mul_le_mono_nonneg_r; lia).
      apply Z.ltb_lt. lia.
    + assert (200000001 * U <= T * U) by (apply Z.mul_le_mono_nonneg_r; lia).
      apply Z.ltb_ge. lia.
Qed.

Lemma forallb_isByte (buf : list Z) :
  forallb (fun v => (0 <=? v) && (v <=? 255)) buf = true -> Forall isByte buf.
Proof.
  intros H. apply Forall_forall. intros v Hv.
  rewrite forallb_forall in H. specialize (H v Hv).
  apply andb_prop in H. destruct H as [H1 H2].
  apply Z.leb_le in H1, H2. unfold isByte. lia.
Qed.

Lemma black_total (buf : list Z) :
  Forall isBlack (rgbaPixels buf) -> totalThousandths (rgbaPixels buf) = 0.
Proof.
  induction buf as [|r|r g|r g b|r g b a rest IH] using quad_ind;
    intros H; cbn [rgbaPixels] in *; try reflexivity.
  inversion H as [|? ? Hp Hrest]; subst. destruct Hp as (-> & -> & ->).
  cbn [totalThousandths fold_right luminanceThousandths].
  fold (totalThousandths (rgbaPixels rest)). rewrite (IH Hrest). reflexivity.
Qed.

(** Sums of up to 2500 white pixels are exact: the total after [k]
    pixels is the integer [255 * k]. *)
Lemma white_loop (buf : list Z) :
  forall k n : nat,
    List.length buf = (4 * n)%nat ->
    Forall isWhite (rgbaPixels buf) ->
    (k + n <= 2500)%nat ->
    brightnessLoop #(255 * Z.of_nat k)%js buf = #(255 * Z.of_nat (k + n))%js.
Proof.
  induction buf as [|r|r g|r g b|r g b a rest IH] using quad_ind;
    intros k n Hlen Hw Hk; cbn [List.length] in Hlen; try lia.
  - cbn [brightnessLoop]. do 3 f_equal. lia.
  - cbn [rgbaPixels] in Hw. inversion Hw as [|? ? Hp Hrest]; subst.
    destruct Hp as (-> & -> & ->).
    cbn [brightnessLoop]. rewrite white_step by lia.
    rewrite (IH (S k) (n - 1)%nat) by (try assumption; lia).
    do 3 f_equal. lia.
Qed.

(** C5, as stated, fails at the threshold.  A window whose every pixel
    has the colour (13, 105, 127) has a luminance of exactly 80 in every
    pixel, hence an exact mean of 80, which is not below 80; computed in
    binary64 the luminance of that pixel is just below 80, and the scene
    is classified low-light.  A window of grey 80 has the same exact mean
    and is classified well-lit. *)
Lemma exact_mean_80_classified_low_light :
  let video := plainVideo 13 105 127 in
  let window := rgbaPixels (centerWindow video) in
  Z.of_nat (List.length window) = 2500
  /\ luminanceThousandths (13, 105, 127, 255) = 80 * 1000
  /\ totalThousandths window = 80 * (1000 * 2500)
  /\ isLowLight (Some video) = true
  /\ isLowLight (Some (plainVideo 80 80 80)) = false
  /\ ~ (isLowLight (Some video) = true <-> totalThousandths window < 80 * (1000 * 2500)).
Proof.
  cbv zeta.
  assert (HT : totalThousandths (rgbaPixels (centerWindow (plainVideo 13 105 127)))
               = 80 * (1000 * 2500)) by (vm_compute; reflexivity).
  assert (HL : isLowLight (Some (plainVideo 13 105 127)) = true)
    by (vm_compute; reflexivity).
  split; [vm_compute; reflexivity|]. split; [reflexivity|].
  split; [exact HT|]. split; [exact HL|]. split; [vm_compute; reflexivity|].
  rewrite HT. intros [H _]. specialize (H HL). lia.
Qed.

(** C5, amended.  For a source whose 50 x 50 centre window was read back
    in full, the brightness the sampler computes is within [2^-32] of the
    arithmetic mean of [0.299R + 0.587G + 0.114B] over the 2500 pixels of
    the window taken at [((w - 50) / 2, (h - 50) / 2)]; the scene is
    low-light when the computed brightness is below 80, which it is
    whenever the exact mean is below 80 and never when the exact mean is
    above 80.  An all-black window gives brightness 0 and low-light; an
    all-white window gives brightness 255 and not low-light. *)
Theorem brightness_within_rounding_of_mean (video : HTMLVideoElement) :
  Z.of_nat (List.length (centerWindow video)) = 4 * size * size ->
  Forall isByte (centerWindow video) ->
  let window := rgbaPixels (centerWindow video) in
  let T := totalThousandths window in
  centerWindow video
  = frameRegion video ((#(videoWidth video) - #50) / #2)%js
                      ((#(videoHeight video) - #50) / #2)%js 50 50
  /\ Z.of_nat (List.length window) = size * size
  /\ within 32 (avgBrightness (centerWindow video)) T (1000 * (size * size))
  /\ isLowLight (Some video) = (avgBrightness (centerWindow video) <? #80)%js
  /\ (T < 80 * (1000 * (size * size)) -> isLowLight (Some video) = true)
  /\ (80 * (1000 * (size * size)) < T -> isLowLight (Some video) = false)
  /\ (Forall isBlack window ->
      avgBrightness (centerWindow video) = #0%js /\ isLowLight (Some video) = true)
  /\ (Forall isWhite window ->
      avgBrightness (centerWindow video) = #255%js /\ isLowLight (Some video) = false).
Proof.
  intros Hlen Hbytes window T. change (4 * size * size) with 10000 in Hlen.
  change (1000 * (size * size)) with 2500000.
  change (80 * 2500000) with 200000000.
  assert (Hlen' : List.length (centerWindow video) = (4 * 2500)%nat) by lia.
  assert (Hn : List.length window = 2500%nat)
    by (apply rgbaPixels_length, Hlen').
  destruct (window_brightness (centerWindow video) Hlen Hbytes) as (Hw & Hlo & Hhi).
  fold window T in Hw, Hlo, Hhi.
  split; [reflexivity|].
  split; [rewrite Hn; reflexivity|].
  split; [exact Hw|].
  split; [reflexivity|].
  split; [exact Hlo|].
  split; [exact Hhi|].
  split.
  - intros Hb.
    assert (HT : T = 0) by (apply black_total, Hb).
    split; [|apply Hlo; lia].
    unfold avgBrightness.
    rewrite (brightnessLoop_zero _ 2500 Hlen' Hbytes HT), Hlen.
    vm_compute. reflexivity.
  - intros Hwhite.
    assert (E : avgBrightness (centerWindow video) = #255%js).
    { unfold avgBrightness.
      pose proof (white_loop (centerWindow video) 0 2500 Hlen' Hwhite ltac:(lia)) as E.
      change (#(255 * Z.of_nat 0))%js with #0%js in E.
      rewrite E, Hlen. vm_compute. reflexivity. }
    split; [exact E|].
    unfold isLowLight. rewrite E. vm_compute. reflexivity.
Qed.

Lemma brightness_within_rounding_of_mean_witness :
  Z.of_nat (List.length (centerWindow (plainVideo 79 80 81))) = 4 * size * size
  /\ Forall isByte (centerWindow (plainVideo 79 80 81))
  /\ totalThousandths (rgbaPixels (centerWindow (plainVideo 79 80 81)))
     < 80 * (1000 * (size * size))
  /\ isLowLight (Some (plainVideo 79 80 81)) = true.
Proof.
  assert (Hlen : Z.of_nat (List.length (centerWindow (plainVideo 79 80 81)))
                 = 4 * size * size) by (vm_compute; reflexivity).
  assert (Hbytes : Forall isByte (centerWindow (plainVideo 79 80 81)))
    by (apply forallb_isByte; vm_compute; reflexivity).
  assert (HT : totalThousandths (rgbaPixels (centerWindow (plainVideo 79 80 81)))
               < 80 * (1000 * (size * size))) by (vm_compute; reflexivity).
  split; [exact Hlen|]. split; [exact Hbytes|]. split; [exact HT|].
  destruct (brightness_within_rounding_of_mean (plainVideo 79 80 81) Hlen Hbytes)
    as (_ & _ & _ & _ & Hlow & _).
  exact (Hlow HT).
Defined.

(* ================================================================== *)
(** ** Further properties of the capture sequence *)

Import Runs.

Ltac world_proj :=
  cbn [fst snd torch processing isFlashing capturedImage error trace].


(** Case analysis on everything the sequence asks of its environment. *)
Ltac case_env :=
  repeat (match goal with
          | |- context [videoRef ?c] => destruct (videoRef c) as [?video|] eqn:?
          | |- context [canvasRef ?c] => destruct (canvasRef c) as [?canvas|] eqn:?
          | |- context [isLowLight ?v] => destruct (isLowLight v) eqn:?
          | |- context [torchSupported ?c] => destruct (torchSupported c) eqn:?
          | |- context [stream ?c] => destruct (stream c) as [?s|] eqn:?
          | |- context [getVideoTracks ?s] =>
              destruct (getVideoTracks s) as [|?track ?tracks] eqn:?
          | |- context [accepts ?t ?k] => destruct (accepts t k) eqn:?
          | |- context [has2dContext ?cv] => destruct (has2dContext cv) eqn:?
          | |- context [applyFilters ?b ?u ?o] => destruct (applyFilters b u o) eqn:?
          end; cbv beta iota; world_proj).


Lemma applyFilters_processed (b : Browser) (url : DataURL) (o : FilterOptions) :
  applyFilters b url o
  = match loadImage b url with
    | Some img => Some (processed o img)
    | None => None
    end.
Proof. reflexivity. Qed.

(** X9.  Whenever both refs are set, the canvas gives a 2D context and the
    grabbed image loads back, the capture returns normally with
    [processing] reset and [capturedImage] set to the 0.98-quality JPEG of
    the filtered pixels, at the size of the decoded image.  This holds
    whatever the torch does: an unsupported, missing or rejecting torch
    never interrupts the capture. *)
Theorem capture_succeeds_whatever_the_torch (v : Variant) (c : Component) (w : World)
    video canvas img :
  videoRef c = Some video ->
  canvasRef c = Some canvas ->
  has2dContext canvas = true ->
  loadImage (browser c) (JpegDataURL (jpegQuality v) (rawFrame c video)) = Some img ->
  let r := captureStrategy v c w in
  fst r = Returned tt
  /\ processing (snd r) = false
  /\ isFlashing (snd r) = true
  /\ capturedImage (snd r) = Some (processed (filterOptions v) img).
Proof.
  intros Hv Hc Hctx Hload. cbv zeta. unfold rawFrame in Hload.
  run_capture. rewrite Hv, Hc, Hctx, applyFilters_processed, Hload.
  case_env; auto.
Qed.

Lemma capture_succeeds_whatever_the_torch_witness :
  videoRef darkSceneStubbornDevice = Some (uniformVideo 0)
  /\ canvasRef darkSceneStubbornDevice = Some goodCanvas
  /\ has2dContext goodCanvas = true
  /\ fst (captureStrategy current darkSceneStubbornDevice idle) = Returned tt.
Proof.
  split; [reflexivity|]. split; [reflexivity|]. split; [reflexivity|].
  apply (capture_succeeds_whatever_the_torch current darkSceneStubbornDevice idle
           (uniformVideo 0) goodCanvas
           (rawFrame darkSceneStubbornDevice (uniformVideo 0)));
    reflexivity.
Defined.

(** X10.  When the grabbed image does not load back, [applyFilters] never
    settles ([onload] is the only way out), so the capture never returns:
    [finally] is not reached, [processing] stays [true] and no image is
    stored. *)
Theorem capture_stalls_when_image_fails_to_load (v : Variant) (c : Component)
    (w : World) video canvas :
  videoRef c = Some video ->
  canvasRef c = Some canvas ->
  has2dContext canvas = true ->
  loadImage (browser c) (JpegDataURL (jpegQuality v) (rawFrame c video)) = None ->
  let r := captureStrategy v c w in
  fst r = Pending
  /\ processing (snd r) = true
  /\ capturedImage (snd r) = capturedImage w.
Proof.
  intros Hv Hc Hctx Hload. cbv zeta. unfold rawFrame in Hload.
  run_capture. rewrite Hv, Hc, Hctx, applyFilters_processed, Hload.
  case_env; auto.
Qed.

Lemma capture_stalls_when_image_fails_to_load_witness :
  videoRef daylightDeafBrowser = Some (uniformVideo 255)
  /\ canvasRef daylightDeafBrowser = Some goodCanvas
  /\ has2dContext goodCanvas = true
  /\ processing (snd (captureStrategy current daylightDeafBrowser idle)) = true.
Proof.
  split; [reflexivity|]. split; [reflexivity|]. split; [reflexivity|].
  apply (capture_stalls_when_image_fails_to_load current daylightDeafBrowser idle
           (uniformVideo 255) goodCanvas);
    reflexivity.
Defined.

(** X11.  The low-light cycle: when the scene is low-light, the torch is
    supported, the device accepts both requests and the grab succeeds,
    the capture switches the torch on and then off exactly once, in that
    order, ends with the torch off, and waits 300 ms for the light plus the
    focus delay before the grab. *)
Theorem low_light_capture_cycles_torch_once (v : Variant) (c : Component) (w : World)
    video canvas s track tracks :
  videoRef c = Some video ->
  canvasRef c = Some canvas ->
  stream c = Some s ->
  getVideoTracks s = track :: tracks ->
  accepts track (Torch true) = true ->
  accepts track (Torch false) = true ->
  torchSupported c = true ->
  isLowLight (Some video) = true ->
  has2dContext canvas = true ->
  let r := captureStrategy v c w in
  torchCommands (trace (snd r)) = false :: true :: torchCommands (trace w)
  /\ constraintRequests (trace (snd r)) = S (S (constraintRequests (trace w)))
  /\ torch (snd r) = false
  /\ totalWait (trace (snd r)) = totalWait (trace w) + 300 + focusSettle v.
Proof.
  intros Hv Hc Hs Ht Hon Hoff Hts Hlow Hctx. cbv zeta.
  run_capture. rewrite Hv, Hc, Hlow, Hts, Hs, Ht, Hon. world_proj.
  rewrite Hctx, Hoff. world_proj.
  destruct (applyFilters _ _ _); world_proj;
    cbn [torchCommands constraintRequests totalWait]; repeat split; lia.
Qed.

Lemma low_light_capture_cycles_torch_once_witness :
  videoRef darkScene = Some (uniformVideo 0)
  /\ isLowLight (Some (uniformVideo 0)) = true
  /\ torchCommands (trace (snd (captureStrategy current darkScene idle)))
     = false :: true :: torchCommands (trace idle).
Proof.
  split; [reflexivity|]. split; [vm_compute; reflexivity|].
  apply (low_light_capture_cycles_torch_once current darkScene idle
           (uniformVideo 0) goodCanvas willingStream
           {| accepts := fun _ => true |} []);
    vm_compute; reflexivity.
Defined.

(** X12.  Whenever both refs are set, the capture spends exactly the focus
    delay in awaited waits, plus 300 ms when the scene is low-light and the
    torch is supported, whether or not a stream is there, the device
    accepts the torch, or the grab succeeds. *)
Theorem capture_wait_time (v : Variant) (c : Component) (w : World) video canvas :
  videoRef c = Some video ->
  canvasRef c = Some canvas ->
  totalWait (trace (snd (captureStrategy v c w)))
  = totalWait (trace w) + focusSettle v
    + (if isLowLight (Some video) && torchSupported c then 300 else 0).
Proof.
  intros Hv Hc. run_capture. rewrite Hv, Hc.
  case_env; cbn [totalWait]; lia.
Qed.

Lemma capture_wait_time_witness :
  videoRef darkSceneNoContext = Some (uniformVideo 0)
  /\ canvasRef darkSceneNoContext = Some contextlessCanvas
  /\ totalWait (trace (snd (captureStrategy earlier darkSceneNoContext idle)))
     = totalWait (trace idle) + focusSettle earlier
       + (if isLowLight (Some (uniformVideo 0)) && torchSupported darkSceneNoContext
          then 300 else 0).
Proof.
  split; [reflexivity|]. split; [reflexivity|].
  apply (capture_wait_time earlier darkSceneNoContext idle
           (uniformVideo 0) contextlessCanvas); reflexivity.
Defined.

Lemma no_request_when_gated (v : Variant) (c : Component) (w : World) :
  torchSupported c = false \/ stream c = None ->
  constraintRequests (trace (snd (captureStrategy v c w)))
  = constraintRequests (trace w)
  /\ torch (snd (captureStrategy v c w)) = torch w.
Proof.
  intros [H|H]; run_capture; rewrite H; case_env; cbn [constraintRequests]; auto.
Qed.

(** X13.  Torch requests are gated: when the torch is not supported or no
    stream is held, a capture makes no [applyConstraints] call at all and
    leaves the torch as it was, however dark the scene. *)
Theorem no_request_without_torch_support (v : Variant) (c : Component) (w : World) :
  torchSupported c = false \/ stream c = None ->
  constraintRequests (trace (snd (captureStrategy v c w)))
  = constraintRequests (trace w)
  /\ torch (snd (captureStrategy v c w)) = torch w.
Proof.
  intros [Hgate|Hgate]; run_capture; rewrite Hgate; case_env;
    cbn [constraintRequests]; split; reflexivity.
Qed.

Lemma no_request_without_torch_support_witness :
  (torchSupported darkSceneNoTorch = false \/ stream darkSceneNoTorch = None)
  /\ isLowLight (videoRef darkSceneNoTorch) = true
  /\ torch (snd (captureStrategy current darkSceneNoTorch idle)) = torch idle.
Proof.
  split; [left; reflexivity|]. split; [vm_compute; reflexivity|].
  apply (no_request_without_torch_support current darkSceneNoTorch idle).
  left; reflexivity.
Defined.

(** *** The front camera *)

Lemma pixelsOf_concat (ps : list (list Z)) :
  Forall (fun p => List.length p = 4%nat) ps -> pixelsOf (List.concat ps) = ps.
Proof.
  induction 1 as [|p ps Hp _ IH]; [reflexivity|].
  destruct p as [|r [|g [|b [|a [|x p]]]]]; try discriminate Hp.
  cbn [List.concat app pixelsOf]. now rewrite IH.
Qed.

Lemma pixelsOf_quads (row : list Z) :
  forall n : nat, List.length row = (4 * n)%nat ->
    Forall (fun p => List.length p = 4%nat) (pixelsOf row)
    /\ List.concat (pixelsOf row) = row.
Proof.
  induction row as [|r|r g|r g b|r g b a rest IH] using quad_ind;
    intros n Hlen; cbn [List.length] in Hlen; try lia.
  - split; [constructor|reflexivity].
  - destruct (IH (n - 1)%nat ltac:(lia)) as [Hall Hcat].
    cbn [pixelsOf List.concat app]. split; [constructor; [reflexivity|exact Hall]|].
    now rewrite Hcat.
Qed.

Lemma concat_quads_length (ps : list (list Z)) :
  Forall (fun p => List.length p = 4%nat) ps ->
  List.length (List.concat ps) = (4 * List.length ps)%nat.
Proof.
  induction 1 as [|p ps Hp _ IH]; [reflexivity|].
  cbn [List.concat List.length]. rewrite length_app, Hp, IH. lia.
Qed.

Lemma flipRow_length (row : list Z) (n : nat) :
  List.length row = (4 * n)%nat ->
  List.length (List.concat (rev (pixelsOf row))) = List.length row.
Proof.
  intros Hlen. destruct (pixelsOf_quads row n Hlen) as [Hall Hcat].
  rewrite concat_quads_length by (apply Forall_rev, Hall).
  rewrite length_rev, <- concat_quads_length by exact Hall.
  now rewrite Hcat.
Qed.

Lemma flipRow_involutive (row : list Z) (n : nat) :
  List.length row = (4 * n)%nat ->
  List.concat (rev (pixelsOf (List.concat (rev (pixelsOf row))))) = row.
Proof.
  intros Hlen. destruct (pixelsOf_quads row n Hlen) as [Hall Hcat].
  rewrite pixelsOf_concat by (apply Forall_rev, Hall).
  now rewrite rev_involutive.
Qed.

Lemma rowsOf_spec (h n : nat) :
  forall bytes, List.length bytes = (h * n)%nat ->
    Forall (fun r => List.length r = n) (rowsOf h n bytes)
    /\ List.length (rowsOf h n bytes) = h
    /\ List.concat (rowsOf h n bytes) = bytes.
Proof.
  induction h as [|h IH]; intros bytes Hlen.
  - destruct bytes; [|discriminate Hlen]. repeat split. constructor.
  - cbn [rowsOf List.concat List.length].
    destruct (IH (skipn n bytes)) as (Hall & Hh & Hcat).
    { rewrite length_skipn. lia. }
    split; [|split].
    + constructor; [|exact Hall]. rewrite length_firstn. lia.
    + now rewrite Hh.
    + rewrite Hcat. apply firstn_skipn.
Qed.

Lemma rowsOf_concat (n : nat) (rows : list (list Z)) :
  Forall (fun r => List.length r = n) rows ->
  rowsOf (List.length rows) n (List.concat rows) = rows.
Proof.
  induction 1 as [|r rows Hr _ IH]; [reflexivity|].
  cbn [List.length rowsOf List.concat].
  rewrite firstn_app, skipn_app, Hr, Nat.sub_diag.
  rewrite firstn_all2, skipn_all2 by lia.
  cbn [firstn skipn app]. rewrite app_nil_r. now rewrite IH.
Qed.

Lemma mirror_spec (w h : Z) (bytes : list Z) :
  0 <= w -> 0 <= h -> Z.of_nat (List.length bytes) = 4 * w * h ->
  mirror w h (mirror w h bytes) = bytes
  /\ List.length (mirror w h bytes) = List.length bytes.
Proof.
  intros Hw Hh Hlen. unfold mirror.
  set (n := Z.to_nat (4 * w)). set (k := Z.to_nat h).
  set (flip := fun row => List.concat (rev (pixelsOf row))).
  assert (Hn : n = (4 * Z.to_nat w)%nat) by (subst n; lia).
  destruct (rowsOf_spec k n bytes) as (Hall & Hk & Hcat).
  { subst n k. nia. }
  assert (Hflip : Forall (fun r => List.length r = n) (map flip (rowsOf k n bytes))).
  { apply Forall_map. revert Hall. apply Forall_impl. intros r Hr.
    subst flip. cbv beta. rewrite (flipRow_length r (Z.to_nat w)); lia. }
  split.
  - replace k with (List.length (map flip (rowsOf k n bytes))) at 1
      by (now rewrite length_map).
    rewrite rowsOf_concat by exact Hflip.
    rewrite map_map.
    rewrite (map_ext_in _ (fun r => r)); [now rewrite map_id|].
    intros r Hr. rewrite Forall_forall in Hall. specialize (Hall r Hr).
    subst flip. cbv beta. apply (flipRow_involutive r (Z.to_nat w)). lia.
  - rewrite <- Hcat at 2.
    clear Hcat Hk Hflip. induction Hall as [|r rows Hr _ IH]; [reflexivity|].
    cbn [map List.concat]. rewrite !length_app, IH. f_equal.
    subst flip. cbv beta. apply (flipRow_length r (Z.to_nat w)). lia.
Qed.

(** The [j]-th element of the [i]-th of several lists of one length. *)
Lemma concat_nth_error {A} (n : nat) (ls : list (list A)) :
  Forall (fun l => List.length l = n) ls ->
  forall i j : nat, (j < n)%nat ->
    nth_error (List.concat ls) (i * n + j)
    = match nth_error ls i with
      | Some l => nth_error l j
      | None => None
      end.
Proof.
  induction 1 as [|l ls Hl _ IH]; intros i j Hj.
  - destruct i; cbn [List.concat nth_error]; now destruct (_ + _)%nat.
  - cbn [List.concat]. destruct i as [|i].
    + cbn [Nat.mul Nat.add nth_error]. apply nth_error_app1. lia.
    + cbn [nth_error]. rewrite nth_error_app2 by lia.
      replace (S i * n + j - List.length l)%nat with (i * n + j)%nat by lia.
      now apply IH.
Qed.

Lemma nth_error_rev_lt {A} (l : list A) (i : nat) :
  (i < List.length l)%nat ->
  nth_error (rev l) i = nth_error l (List.length l - 1 - i).
Proof.
  intros Hi.
  destruct (nth_error l (List.length l - 1 - i)) as [a|] eqn:E.
  - rewrite (nth_error_nth' _ a) by (rewrite length_rev; lia).
    rewrite rev_nth by lia.
    replace (List.length l - S i)%nat with (List.length l - 1 - i)%nat by lia.
    apply nth_error_nth with (d := a) in E. now rewrite E.
  - apply nth_error_None in E. lia.
Qed.

Lemma pixelsOf_length (row : list Z) (n : nat) :
  List.length row = (4 * n)%nat -> List.length (pixelsOf row) = n.
Proof.
  intros Hlen. destruct (pixelsOf_quads row n Hlen) as [Hall Hcat].
  pose proof (concat_quads_length _ Hall) as H. rewrite Hcat in H. lia.
Qed.

(** In a row of [n] pixels reversed pixel by pixel, the pixel at [x] is
    the pixel that was at [n - 1 - x]. *)
Lemma flipRow_nth_error (row : list Z) (n x ch : nat) :
  List.length row = (4 * n)%nat -> (x < n)%nat -> (ch < 4)%nat ->
  nth_error (List.concat (rev (pixelsOf row))) (4 * x + ch)
  = nth_error row (4 * (n - 1 - x) + ch).
Proof.
  intros Hlen Hx Hch.
  destruct (pixelsOf_quads row n Hlen) as [Hall Hcat].
  pose proof (pixelsOf_length row n Hlen) as Hn.
  rewrite <- Hcat at 2.
  replace (4 * x + ch)%nat with (x * 4 + ch)%nat by lia.
  replace (4 * (n - 1 - x) + ch)%nat with ((n - 1 - x) * 4 + ch)%nat by lia.
  rewrite (concat_nth_error 4) by (try apply Forall_rev; assumption).
  rewrite (concat_nth_error 4) by assumption.
  rewrite nth_error_rev_lt by lia. now rewrite Hn.
Qed.

(** The byte at column [x], row [y], channel [ch] of a mirrored frame is
    the byte at column [w - 1 - x] of the same row of the frame. *)
Lemma mirror_nth_error (w h : Z) (bytes : list Z) (x y ch : Z) :
  Z.of_nat (List.length bytes) = 4 * w * h ->
  0 <= x < w -> 0 <= y < h -> 0 <= ch < 4 ->
  nth_error (mirror w h bytes) (Z.to_nat (4 * (y * w + x) + ch))
  = nth_error bytes (Z.to_nat (4 * (y * w + (w - 1 - x)) + ch)).
Proof.
  intros Hlen Hx Hy Hch. unfold mirror.
  set (n := Z.to_nat (4 * w)). set (k := Z.to_nat h).
  set (flip := fun row => List.concat (rev (pixelsOf row))).
  destruct (rowsOf_spec k n bytes) as (Hall & Hk & Hcat).
  { subst n k. nia. }
  assert (Hflip : Forall (fun r => List.length r = n) (map flip (rowsOf k n bytes))).
  { apply Forall_map. revert Hall. apply Forall_impl. intros r Hr.
    subst flip. cbv beta. rewrite (flipRow_length r (Z.to_nat w)); lia. }
  replace (Z.to_nat (4 * (y * w + x) + ch))
    with (Z.to_nat y * n + (4 * Z.to_nat x + Z.to_nat ch))%nat by (subst n; nia).
  replace (Z.to_nat (4 * (y * w + (w - 1 - x)) + ch))
    with (Z.to_nat y * n + (4 * (Z.to_nat w - 1 - Z.to_nat x) + Z.to_nat ch))%nat
    by (subst n; nia).
  rewrite <- Hcat at 2.
  rewrite (concat_nth_error n) by (try exact Hflip; subst n; lia).
  rewrite (concat_nth_error n) by (try exact Hall; subst n; lia).
  rewrite nth_error_map.
  destruct (nth_error (rowsOf k n bytes) (Z.to_nat y)) as [row|] eqn:Hrow.
  - cbn [option_map]. subst flip. cbv beta.
    apply flipRow_nth_error; try lia.
    rewrite Forall_forall in Hall. rewrite (Hall row); [subst n; lia|].
    eapply nth_error_In, Hrow.
  - reflexivity.
Qed.

(** X27.  The grab mirrors the front camera and only the front camera.
    Whenever the canvas gives a 2D context, [grabFrame] returns an image
    of the size of the video in which the byte at column [x], row [y],
    channel [ch] is the byte of the frame at column [w - 1 - x] of the
    same row for the front camera, and at column [x] for the rear one;
    mirroring the front image once more gives the frame back.  That
    image is the one [captureStrategy] hands to the filters. *)
Theorem front_camera_frame_is_mirrored (v : Variant) (c : Component) (w : World)
    (video : HTMLVideoElement) (canvas : HTMLCanvasElement) (x y ch : Z) :
  let W := videoWidth video in
  let H := videoHeight video in
  let frame := frameRegion video #0%js #0%js W H in
  videoRef c = Some video ->
  canvasRef c = Some canvas ->
  has2dContext canvas = true ->
  Z.of_nat (List.length frame) = 4 * W * H ->
  0 <= x < W -> 0 <= y < H -> 0 <= ch < 4 ->
  exists img,
    grabFrame c video canvas w = (Returned img, w)
    /\ rawFrame c video = img
    /\ width img = W /\ height img = H
    /\ List.length (data img) = List.length frame
    /\ nth_error (data img) (Z.to_nat (4 * (y * W + x) + ch))
       = nth_error frame
           (Z.to_nat (4 * (y * W + match facingMode c with
                                   | user => W - 1 - x
                                   | environment => x
                                   end) + ch))
    /\ (facingMode c = user -> mirror W H (data img) = frame)
    /\ capturedImage (snd (captureStrategy v c w))
       = match applyFilters (browser c) (JpegDataURL (jpegQuality v) img)
                 (filterOptions v) with
         | Some filtered => Some filtered
         | None => capturedImage w
         end.
Proof.
  intros W H frame Hv Hc Hctx Hlen Hx Hy Hch.
  destruct (mirror_spec W H frame ltac:(lia) ltac:(lia) Hlen) as [Hinv Hsize].
  exists (rawFrame c video).
  split; [unfold grabFrame, rawFrame, ret; now rewrite Hctx|].
  split; [reflexivity|]. split; [reflexivity|]. split; [reflexivity|].
  unfold rawFrame. cbn [data]. fold W H frame.
  split; [destruct (facingMode c); [exact Hsize|reflexivity]|].
  split; [destruct (facingMode c); [now apply mirror_nth_error|reflexivity]|].
  split; [intros ->; exact Hinv|].
  run_capture. rewrite Hv, Hc, Hctx. fold W H frame.
  case_env; reflexivity.
Qed.

Lemma front_camera_frame_is_mirrored_witness :
  videoRef markedFrontCapture = Some markedVideo
  /\ canvasRef markedFrontCapture = Some goodCanvas
  /\ has2dContext goodCanvas = true
  /\ Z.of_nat (List.length (frameRegion markedVideo #0%js #0%js 2 2)) = 4 * 2 * 2
  /\ exists img,
       grabFrame markedFrontCapture markedVideo goodCanvas idle = (Returned img, idle)
       /\ nth_error (data img) 0 = Some 4.
Proof.
  split; [reflexivity|]. split; [reflexivity|]. split; [reflexivity|].
  split; [reflexivity|].
  destruct (front_camera_frame_is_mirrored current markedFrontCapture idle
              markedVideo goodCanvas 0 0 0)
    as (img & Hgrab & _ & _ & _ & _ & Hpx & _);
    try reflexivity; try (cbn; lia).
  exists img. split; [exact Hgrab|]. exact Hpx.
Defined.

(* ================================================================== *)
(** ** Starting the camera, zoom and tap to focus *)

Import Session.

(** Running a handler on a state given field by field. *)
Ltac state_proj :=
  cbv beta iota delta
      [fst snd stream streamRef srcObject error loading facingMode
       torchSupported zoom zoomRange showZoom focusPoint log] in *.

Ltac unfold_act :=
  cbv beta iota zeta delta
      [startCamera switchCamera handleZoomChange handleTapToFocus wiggleZoomOf
       getUserMedia apply sleep emit closure andThen attempt pure raise
       setStream setStreamRef setSrcObject setError setLoading setFacingMode
       setTorchSupported setZoom setZoomRange setShowZoom setFocusPoint
       fst snd stream streamRef srcObject error loading facingMode
       torchSupported zoom zoomRange showZoom focusPoint log] in *.

Ltac run_act st :=
  destruct st as [s sref src err ld mode ts zm zr sz fp lg];
  unfold_act.

(** *** Choosing a value within a range *)

(** [Math.min(Math.max(preferred, lo), hi)] lies within [lo, hi] whenever
    the range is not empty, and is the preferred value when that lies
    strictly inside. *)
Lemma preferred_within_range (preferred lo hi : number) :
  (hi <? lo)%js = false ->
  let z := Math_min (Math_max preferred lo) hi in
  (z <? lo)%js = false /\ (hi <? z)%js = false.
Proof.
  intros Hrange z. subst z.
  destruct (Math_min_cases (Math_max preferred lo) hi) as [E|[[E H]|[E H]]];
    rewrite E.
  - split; [reflexivity|apply lt_NaN_r].
  - split; [exact Hrange|apply lt_irrefl].
  - split; [|exact H].
    destruct (Math_max_cases preferred lo) as [E'|[[E' H']|[E' H']]]; rewrite E'.
    + reflexivity.
    + apply lt_irrefl.
    + exact H'.
Qed.

Lemma lt_not_NaN_l (x y : number) : (x <? y)%js = true -> x <> S754_nan.
Proof. intros H ->. discriminate H. Qed.

Lemma lt_not_NaN_r (x y : number) : (x <? y)%js = true -> y <> S754_nan.
Proof. intros H ->. change S754_nan with NaN in H. rewrite lt_NaN_r in H. discriminate H. Qed.

Lemma Math_max_l (x y : number) : (y <? x)%js = true -> Math_max x y = x.
Proof.
  intros H. pose proof (lt_asym _ _ H) as H'.
  pose proof (lt_not_NaN_l _ _ H). pose proof (lt_not_NaN_r _ _ H).
  destruct x, y; try congruence; cbv beta iota delta [Math_max];
    now rewrite H', H.
Qed.

Lemma Math_min_l (x y : number) : (x <? y)%js = true -> Math_min x y = x.
Proof.
  intros H. pose proof (lt_asym _ _ H) as H'.
  pose proof (lt_not_NaN_l _ _ H). pose proof (lt_not_NaN_r _ _ H).
  destruct x, y; try congruence; cbv beta iota delta [Math_min];
    now rewrite H', H.
Qed.

(** X14.  The initial zoom of the earlier copy of [startCamera] is
    clamped to the range the device reports: whenever that range is not
    empty ([max] is not below [min]), the zoom chosen is never below [min]
    nor above [max]. *)
Theorem initial_zoom_within_range (capabilities : MediaTrackCapabilities) (z : Range) :
  capZoom capabilities = Some z ->
  (max z <? min z)%js = false ->
  (initialZoom capabilities <? min z)%js = false
  /\ (max z <? initialZoom capabilities)%js = false.
Proof.
  intros Hz Hrange. unfold initialZoom. rewrite Hz.
  apply (preferred_within_range (decimal 15 10) (min z) (max z) Hrange).
Qed.

Lemma initial_zoom_within_range_witness :
  capZoom wideZoomCapabilities = Some {| min := #2%js; max := #8%js |}
  /\ (#8 <? #2)%js = false
  /\ (initialZoom wideZoomCapabilities <? #2)%js = false
  /\ (#8 <? initialZoom wideZoomCapabilities)%js = false.
Proof.
  split; [reflexivity|]. split; [reflexivity|].
  apply (initial_zoom_within_range wideZoomCapabilities
           {| min := #2%js; max := #8%js |}); reflexivity.
Defined.

(** X15.  The policy behind the initial zoom: when 1.5 lies strictly
    inside the range of the device the zoom chosen is exactly 1.5. *)
Theorem initial_zoom_prefers_one_and_a_half
    (capabilities : MediaTrackCapabilities) (z : Range) :
  capZoom capabilities = Some z ->
  (min z <? decimal 15 10)%js = true ->
  (decimal 15 10 <? max z)%js = true ->
  initialZoom capabilities = decimal 15 10.
Proof.
  intros Hz H1 H2. unfold initialZoom. rewrite Hz.
  rewrite (Math_max_l _ _ H1). apply (Math_min_l _ _ H2).
Qed.

Lemma initial_zoom_prefers_one_and_a_half_witness :
  capZoom fullCapabilities = Some {| min := #1%js; max := #8%js |}
  /\ (#1 <? decimal 15 10)%js = true
  /\ (decimal 15 10 <? #8)%js = true
  /\ initialZoom fullCapabilities = decimal 15 10.
Proof.
  split; [reflexivity|]. split; [reflexivity|]. split; [reflexivity|].
  apply (initial_zoom_prefers_one_and_a_half fullCapabilities
           {| min := #1%js; max := #8%js |}); reflexivity.
Defined.

Lemma Math_max_r (x y : number) : (x <? y)%js = true -> Math_max x y = y.
Proof.
  intros H.
  pose proof (lt_not_NaN_l _ _ H). pose proof (lt_not_NaN_r _ _ H).
  destruct x, y; try congruence; cbv beta iota delta [Math_max];
    now rewrite H.
Qed.

Lemma Math_min_r (x y : number) : (y <? x)%js = true -> Math_min x y = y.
Proof.
  intros H.
  pose proof (lt_not_NaN_l _ _ H). pose proof (lt_not_NaN_r _ _ H).
  destruct x, y; try congruence; cbv beta iota delta [Math_min];
    now rewrite H.
Qed.

(** What is below a number is below everything that number is not above. *)
Lemma lt_le_trans (x y z : number) :
  (x <? y)%js = true -> (z <? y)%js = false -> z <> S754_nan -> (x <? z)%js = true.
Proof.
  unfold lt, SFltb.
  destruct x as [sx|sx| |sx mx ex], y as [sy|sy| |sy my ey], z as [sz|sz| |sz mz ez];
    cbn [SFcompare]; intros Hxy Hzy Hz; try congruence;
    try (destruct sx; try destruct sy; try destruct sz; simpl in *; congruence);
    try (destruct sy; try destruct sz; simpl in *; congruence).
  destruct sx, sy, sz; try congruence;
    change (Pos.compare_cont Eq mx my) with (Pos.compare mx my) in *;
    change (Pos.compare_cont Eq mz my) with (Pos.compare mz my) in *;
    change (Pos.compare_cont Eq mx mz) with (Pos.compare mx mz) in *;
    destruct (Z.compare_spec ex ey), (Z.compare_spec ez ey), (Z.compare_spec ex ez);
    try congruence; try lia; subst;
    destruct (Pos.compare_spec mx my), (Pos.compare_spec mz my), (Pos.compare_spec mx mz);
    cbn [CompOpp] in *; try congruence; try lia.
Qed.

(** [Math.min(Math.max(preferred, lo), hi)], case by case. *)
Lemma preferred_clamped (preferred lo hi : number) :
  preferred <> S754_nan ->
  let z := Math_min (Math_max preferred lo) hi in
  ((lo <? preferred)%js = true -> (preferred <? hi)%js = true -> z = preferred)
  /\ ((preferred <? lo)%js = true -> (lo <? hi)%js = true -> z = lo)
  /\ ((hi <? preferred)%js = true -> lo <> S754_nan -> z = hi)
  /\ ((hi <? lo)%js = true -> z = hi).
Proof.
  intros Hp z. subst z. repeat split.
  - intros H1 H2. rewrite (Math_max_l _ _ H1). apply (Math_min_l _ _ H2).
  - intros H1 H2. rewrite (Math_max_r _ _ H1). apply (Math_min_l _ _ H2).
  - intros H1 Hlo.
    destruct (Math_max_cases preferred lo) as [E|[[E H]|[E H]]]; rewrite E.
    + apply Math_max_NaN in E. destruct E; contradiction.
    + apply Math_min_r. apply (lt_le_trans hi preferred lo H1 H Hlo).
    + apply Math_min_r, H1.
  - intros H1.
    destruct (Math_max_cases preferred lo) as [E|[[E H]|[E H]]]; rewrite E.
    + apply Math_max_NaN in E. destruct E as [E|E]; [contradiction|].
      rewrite E in H1. rewrite lt_NaN_r in H1. discriminate H1.
    + apply Math_min_r, H1.
    + apply Math_min_r. apply (lt_le_trans hi lo preferred H1 H Hp).
Qed.

(** X16.  The focus lock asks for at most one focus mode, [single-shot]
    before [manual], followed by a focus distance exactly when the device
    reports a range for it.  The distance is 5 cm clamped to that range:
    0.05 when that lies strictly inside, the minimum when the range
    starts above 0.05, the maximum when the range ends below 0.05 or is
    empty; for a range that is not empty it lies within the range. *)
Theorem focus_lock_constraints_shape (capabilities : MediaTrackCapabilities) :
  exists modes distance,
    lockFocusConstraints capabilities = modes ++ distance
    /\ modes = (if supportsFocusMode capabilities "single-shot"
                then [FocusMode "single-shot"]
                else if supportsFocusMode capabilities "manual"
                     then [FocusMode "manual"]
                     else [])
    /\ match capFocusDistance capabilities with
       | None => distance = []
       | Some fd =>
           exists d,
             distance = [FocusDistance d]
             /\ ((min fd <? decimal 5 100)%js = true ->
                 (decimal 5 100 <? max fd)%js = true -> d = decimal 5 100)
             /\ ((decimal 5 100 <? min fd)%js = true ->
                 (min fd <? max fd)%js = true -> d = min fd)
             /\ ((max fd <? decimal 5 100)%js = true ->
                 min fd <> S754_nan -> d = max fd)
             /\ ((max fd <? min fd)%js = true -> d = max fd)
             /\ ((max fd <? min fd)%js = false ->
                 (d <? min fd)%js = false /\ (max fd <? d)%js = false)
       end.
Proof.
  unfold lockFocusConstraints.
  eexists. eexists. split; [reflexivity|]. split; [reflexivity|].
  destruct (capFocusDistance capabilities) as [fd|]; [|reflexivity].
  eexists. split; [reflexivity|].
  assert (H5 : decimal 5 100 <> S754_nan) by (vm_compute; discriminate).
  destruct (preferred_clamped (decimal 5 100) (min fd) (max fd) H5)
    as (Ha & Hb & Hc & Hd).
  split; [exact Ha|]. split; [exact Hb|]. split; [exact Hc|]. split; [exact Hd|].
  apply preferred_within_range.
Qed.

Lemma focus_lock_constraints_shape_witness :
  lockFocusConstraints fullCapabilities
  = [FocusMode "manual"; FocusDistance (decimal 1 10)]
  /\ lockFocusConstraints macroCapabilities
     = [FocusMode "single-shot"; FocusDistance (decimal 5 100)].
Proof.
  split.
  - destruct (focus_lock_constraints_shape fullCapabilities)
      as (modes & distance & -> & -> & d & -> & _ & Hmin & _).
    rewrite Hmin; reflexivity.
  - destruct (focus_lock_constraints_shape macroCapabilities)
      as (modes & distance & -> & -> & d & -> & Hin & _).
    rewrite Hin; reflexivity.
Defined.

(** *** [handleZoomChange] *)

(** Case analysis on what a handler asks of the track it holds. *)
Ltac case_track :=
  repeat (match goal with
          | |- context [constraintsMethod ?t] =>
              destruct (constraintsMethod t) as [?method|] eqn:?
          | |- context [if ?method ?adv then _ else _] =>
              destruct (method adv) eqn:?
          | |- context [supportsFocusMode ?c ?m] =>
              destruct (supportsFocusMode c m) eqn:?
          | |- context [capTorch ?c] => destruct (capTorch c) eqn:?
          | |- context [capZoom ?c] => destruct (capZoom c) as [?z|] eqn:?
          end; state_proj).

(** A log that grew: the entries in front of the old ones. *)
Ltac exists_added :=
  match goal with
  | |- exists added, ?new = added ++ ?old /\ _ =>
      let rec go l :=
        lazymatch l with
        | old => constr:(@nil Entry)
        | ?e :: ?l' => let r := go l' in constr:(e :: r)
        end in
      let a := go new in exists a
  | |- exists added, ?new = added ++ ?old =>
      let rec go l :=
        lazymatch l with
        | old => constr:(@nil Entry)
        | ?e :: ?l' => let r := go l' in constr:(e :: r)
        end in
      let a := go new in exists a
  end.

(** X17.  [handleZoomChange] stores the slider value in the zoom state
    whatever happens next: with no stream, with a device that rejects the
    value, or with a track that cannot take constraints, the state still
    shows the new zoom.  It never throws, makes at most one request, and
    only logs a rejection: the error state and everything else stay. *)
Theorem zoom_change_always_updates_state (newZoom : number) (st : State) :
  let r := handleZoomChange newZoom st in
  fst r = Returned tt
  /\ zoom (snd r) = newZoom
  /\ (List.length (requests (log (snd r))) <= S (List.length (requests (log st))))%nat
  /\ stream (snd r) = stream st
  /\ error (snd r) = error st
  /\ zoomRange (snd r) = zoomRange st
  /\ showZoom (snd r) = showZoom st
  /\ torchSupported (snd r) = torchSupported st.
Proof.
  run_act st. destruct s as [[|track rest]|]; state_proj; case_track;
    cbn [requests List.length]; repeat split; auto.
Qed.

(** *** [handleTapToFocus] *)

(** X18.  A tap always shows the focus ring at the tap position relative
    to the wrapper and sets the timer that hides it.  The handler touches
    no other state (zoom, zoom range, stream, torch support and error
    stay), and it throws in one case only: a stream without any video
    track, where [track.getCapabilities] is read outside the [try]. *)
Theorem tap_sets_focus_point_only (clientX clientY left top : number) (st : State) :
  let r := handleTapToFocus clientX clientY left top st in
  fst r = match stream st with
          | Some [] => Thrown TypeError
          | _ => Returned tt
          end
  /\ focusPoint (snd r) = Some ((clientX - left)%js, (clientY - top)%js)
  /\ In (Timer 1000) (log (snd r))
  /\ zoom (snd r) = zoom st
  /\ zoomRange (snd r) = zoomRange st
  /\ showZoom (snd r) = showZoom st
  /\ stream (snd r) = stream st
  /\ torchSupported (snd r) = torchSupported st
  /\ error (snd r) = error st.
Proof.
  run_act st. destruct s as [[|track rest]|]; state_proj; case_track;
    try destruct sz; state_proj; case_track;
    cbn [In]; repeat split; auto 10.
Qed.

Lemma wiggle_not_above_max (st : State) :
  (max (zoomRange st) <? wiggleZoomOf st)%js = false.
Proof.
  unfold wiggleZoomOf.
  destruct (Math_min_cases (zoom st + decimal 1 10)%js (max (zoomRange st)))
    as [E|[[E H]|[E H]]]; rewrite E.
  - apply lt_NaN_r.
  - apply lt_irrefl.
  - exact H.
Qed.

(** X19.  What a tap can do to the device: every entry it adds to the log
    is a request for [macro] or [continuous-picture] focus, a request for
    a zoom that is the current one or is not above the maximum of the zoom
    range, a wait, the timer, or a warning.  It never asks for the torch,
    never stops a track and never logs an error. *)
Theorem tap_requests_are_bounded (clientX clientY left top : number) (st : State) :
  exists added,
    log (snd (handleTapToFocus clientX clientY left top st)) = added ++ log st
    /\ Forall (tapEntryOk st) added.
Proof.
  pose proof (wiggle_not_above_max st) as Hw.
  run_act st. destruct s as [[|track rest]|]; state_proj; case_track;
    try destruct sz; state_proj; case_track;
    exists_added; (split; [reflexivity|]);
    repeat (constructor;
            [cbv beta iota delta [tapEntryOk zoom zoomRange]; auto|]);
    constructor.
Qed.

(** X20.  The zoom wiggle ends where it started: on a device without
    macro focus, with the zoom slider shown and both requests accepted,
    a tap asks for the wiggle zoom, waits 100 ms and then asks for the
    current zoom again, which is the last thing it does. *)
Theorem tap_wiggle_restores_zoom (clientX clientY left top : number) (st : State)
    track rest method :
  stream st = Some (track :: rest) ->
  supportsFocusMode (capabilitiesOf track) "macro" = false ->
  showZoom st = true ->
  constraintsMethod track = Some method ->
  method [ZoomTo (wiggleZoomOf st)] = true ->
  method [ZoomTo (zoom st)] = true ->
  log (snd (handleTapToFocus clientX clientY left top st))
  = Applied (trackId track) [ZoomTo (zoom st)] true
    :: Slept 100
    :: Applied (trackId track) [ZoomTo (wiggleZoomOf st)] true
    :: Timer 1000
    :: log st.
Proof.
  intros Hs Hmacro Hshow Hm Hw Hz. run_act st. subst s sz.
  repeat (first [rewrite Hmacro | rewrite Hm | rewrite Hw | rewrite Hz];
          state_proj).
  reflexivity.
Qed.

Lemma tap_wiggle_restores_zoom_witness :
  stream runningAtMaxZoom = Some [rearTrack]
  /\ showZoom runningAtMaxZoom = true
  /\ wiggleZoomOf runningAtMaxZoom = #8%js
  /\ log (snd (handleTapToFocus #120 #300 #20 #40 runningAtMaxZoom))%js
     = [Applied 1 [ZoomTo #8%js] true; Slept 100;
        Applied 1 [ZoomTo (wiggleZoomOf runningAtMaxZoom)] true; Timer 1000].
Proof.
  split; [reflexivity|]. split; [reflexivity|]. split; [vm_compute; reflexivity|].
  apply (tap_wiggle_restores_zoom #120%js #300%js #20%js #40%js runningAtMaxZoom
           rearTrack [] (fun _ => true)); reflexivity.
Defined.

(** *** [startCamera] *)

Lemma stopTracks_log (old : MediaStream) :
  forall st,
    stopTracks old st
    = (Returned tt,
       {| stream := stream st; streamRef := streamRef st;
          srcObject := srcObject st; error := error st; loading := loading st;
          facingMode := facingMode st; torchSupported := torchSupported st;
          zoom := zoom st; zoomRange := zoomRange st; showZoom := showZoom st;
          focusPoint := focusPoint st;
          log := rev (map (fun t => Stopped (trackId t)) old) ++ log st |}).
Proof.
  induction old as [|track rest IH]; intros st.
  - destruct st; reflexivity.
  - cbn [stopTracks]. unfold andThen at 1. cbv [emit]. rewrite IH.
    cbn [map rev log]. now rewrite <- app_assoc.
Qed.

Lemma requests_stopped (old : MediaStream) (l : list Entry) :
  requests (rev (map (fun t => Stopped (trackId t)) old) ++ l) = requests l.
Proof.
  induction old as [|t old IH] using rev_ind; [reflexivity|].
  rewrite map_app, rev_app_distr. cbn [map rev app requests]. exact IH.
Qed.

(** Every way a start can go, from the state given field by field. *)
Ltac case_start navigator videoMounted st :=
  let sref := fresh "sref" in
  let mode := fresh "mode" in
  destruct st as [s sref src err ld mode ts zm zr sz fp lg];
  unfold_act;
  destruct videoMounted;
  (destruct sref as [?old|]; [rewrite stopTracks_log|idtac]);
  state_proj;
  (destruct (navigator mode) as [[|?track ?rest]|?e] eqn:?);
  state_proj; case_track.

Lemma startCamera_torchSupported (navigator : FacingMode -> Grant)
    (videoMounted : bool) (st : State) :
  torchSupported (snd (startCamera navigator videoMounted st))
  = match navigator (facingMode st) with
    | Granted (track :: _) => capTorch (capabilitiesOf track)
    | _ => false
    end.
Proof.
  case_start navigator videoMounted st; reflexivity.
Qed.


Lemma startCamera_requests_camera (navigator : FacingMode -> Grant)
    (videoMounted : bool) (st : State) :
  In (RequestedCamera (facingMode st))
     (log (snd (startCamera navigator videoMounted st))).
Proof.
  case_start navigator videoMounted st; cbn [In]; auto 10.
Qed.

(** X22.  [startCamera] releases the camera before asking for it again:
    every track of the stream held in [streamRef] is stopped, in order,
    before [getUserMedia] is called for the current facing mode, and
    nothing else reaches the outside before that. *)
Theorem startCamera_stops_old_tracks_first (navigator : FacingMode -> Grant)
    (videoMounted : bool) (st : State) :
  exists later,
    log (snd (startCamera navigator videoMounted st))
    = later
      ++ RequestedCamera (facingMode st)
      :: rev (map (fun t => Stopped (trackId t))
                  (match streamRef st with Some old => old | None => [] end))
      ++ log st.
Proof.
  case_start navigator videoMounted st; cbn [map rev app];
    exists_added; reflexivity.
Qed.

(** X23.  After a rejected [getUserMedia] the component holds no live
    camera but still remembers the old stream: [streamRef] is cleared and
    its tracks were stopped, the torch and the zoom slider are switched
    off in the state, the error is set, while the [stream] state, the
    video source and the zoom keep their old values; no constraint was
    sent. *)
Theorem failed_start_leaves_stale_stream (navigator : FacingMode -> Grant)
    (videoMounted : bool) (st : State) (e : Exn) :
  navigator (facingMode st) = Rejected e ->
  let r := startCamera navigator videoMounted st in
  error (snd r) = Some e
  /\ streamRef (snd r) = None
  /\ stream (snd r) = stream st
  /\ srcObject (snd r) = srcObject st
  /\ torchSupported (snd r) = false
  /\ showZoom (snd r) = false
  /\ zoom (snd r) = zoom st
  /\ requests (log (snd r)) = requests (log st).
Proof.
  intros Hrej.
  case_start navigator videoMounted st; try congruence;
    cbn [requests]; rewrite ?requests_stopped;
    repeat split; congruence.
Qed.

Lemma failed_start_leaves_stale_stream_witness :
  rearOnly (facingMode (snd (switchCamera running))) = Rejected OverconstrainedError
  /\ stream (snd (startCamera rearOnly true (snd (switchCamera running))))
     = Some [rearTrack]
  /\ streamRef (snd (startCamera rearOnly true (snd (switchCamera running)))) = None.
Proof.
  split; [reflexivity|].
  pose proof (failed_start_leaves_stale_stream rearOnly true
                (snd (switchCamera running)) OverconstrainedError eq_refl) as H.
  cbv zeta in H. destruct H as (_ & Href & Hs & _).
  split; [exact Hs | exact Href].
Defined.

(** X24.  The zoom set-up of a successful start: when the first track
    reports a zoom range, the range is stored, the zoom state becomes 1.0
    as soon as the track can take constraints, and the zoom slider is
    shown exactly when the device accepted zoom 1.0.  A rejection is not
    an error: the error state stays empty and the stream is kept. *)
Theorem start_zoom_setup (navigator : FacingMode -> Grant) (videoMounted : bool)
    (st : State) track rest z :
  navigator (facingMode st) = Granted (track :: rest) ->
  capZoom (capabilitiesOf track) = Some z ->
  let r := startCamera navigator videoMounted st in
  zoomRange (snd r) = {| min := min z; max := max z |}
  /\ showZoom (snd r) = match constraintsMethod track with
                        | Some method => method [ZoomTo #1%js]
                        | None => false
                        end
  /\ zoom (snd r) = match constraintsMethod track with
                    | Some _ => #1%js
                    | None => zoom st
                    end
  /\ error (snd r) = None
  /\ stream (snd r) = Some (track :: rest)
  /\ streamRef (snd r) = Some (track :: rest).
Proof.
  intros Hnav Hz.
  case_start navigator videoMounted st; try congruence;
    injection Hnav as <- <-;
    repeat match goal with
           | H : constraintsMethod _ = _ |- _ => rewrite H
           | H : ?m [ZoomTo _] = _ |- _ => rewrite H
           end;
    repeat split; congruence.
Qed.

Lemma start_zoom_setup_witness :
  stubbornOnly (facingMode initial) = Granted [stubbornTrack]
  /\ capZoom (capabilitiesOf stubbornTrack) = Some {| min := #2%js; max := #8%js |}
  /\ showZoom (snd (startCamera stubbornOnly true initial)) = false
  /\ error (snd (startCamera stubbornOnly true initial)) = None.
Proof.
  split; [reflexivity|]. split; [reflexivity|].
  pose proof (start_zoom_setup stubbornOnly true initial stubbornTrack []
                {| min := #2%js; max := #8%js |} eq_refl eq_refl) as H.
  cbv zeta in H. destruct H as (_ & Hshow & _ & Herr & _).
  split; [exact Hshow | exact Herr].
Defined.

(** *** [switchCamera] *)

(** X25.  [switchCamera] toggles the facing mode and nothing else: it
    never fails, the mode after it differs from the mode before, a second
    switch restores the state, and the next [startCamera] asks
    [getUserMedia] for the camera of the new mode. *)
Theorem switch_camera_toggles (navigator : FacingMode -> Grant) (videoMounted : bool)
    (st : State) :
  let st' := snd (switchCamera st) in
  fst (switchCamera st) = Returned tt
  /\ facingMode st' <> facingMode st
  /\ snd (switchCamera st') = st
  /\ In (RequestedCamera (facingMode st'))
        (log (snd (startCamera navigator videoMounted st'))).
Proof.
  cbv zeta. split; [reflexivity|]. split; [|split].
  - destruct st as [? ? ? ? ? mode ? ? ? ? ? ?]. destruct mode; discriminate.
  - destruct st as [? ? ? ? ? mode ? ? ? ? ? ?]. destruct mode; reflexivity.
  - apply startCamera_requests_camera.
Qed.

(** *** From the start of the camera to a capture *)

(** X26.  The torch is used only if the device advertised it: when the
    first track the browser grants does not list [torch] among its
    capabilities (or no camera is granted at all), then after
    [startCamera] a capture makes no [applyConstraints] call and leaves
    the torch alone, however dark the scene and whatever the state held
    before. *)
Theorem torch_gated_by_advertised_capability (navigator : FacingMode -> Grant)
    (videoMounted : bool) (st : State) (video : option HTMLVideoElement)
    (canvas : option HTMLCanvasElement) (b : Browser) (v : Variant) (w : World) :
  (forall track rest, navigator (facingMode st) = Granted (track :: rest) ->
     capTorch (capabilitiesOf track) = false) ->
  let c := componentOf (snd (startCamera navigator videoMounted st)) video canvas b in
  CameraView.torchSupported c = false
  /\ constraintRequests (trace (snd (captureStrategy v c w)))
     = constraintRequests (trace w)
  /\ torch (snd (captureStrategy v c w)) = torch w.
Proof.
  intros Hcap. cbv zeta.
  assert (Hts : CameraView.torchSupported
                  (componentOf (snd (startCamera navigator videoMounted st))
                     video canvas b) = false).
  { cbn [componentOf CameraView.torchSupported].
    rewrite startCamera_torchSupported.
    destruct (navigator (facingMode st)) as [[|track rest]|e] eqn:Hnav;
      try reflexivity.
    now apply (Hcap track rest). }
  split; [exact Hts|].
  apply no_request_when_gated. left. exact Hts.
Qed.

Lemma torch_gated_by_advertised_capability_witness :
  (forall track rest, stubbornOnly (facingMode running) = Granted (track :: rest) ->
     capTorch (capabilitiesOf track) = false)
  /\ CameraView.torchSupported
       (componentOf (snd (startCamera stubbornOnly true running))
          (Some (uniformVideo 0)) (Some goodCanvas) plainBrowser) = false.
Proof.
  assert (H : forall track rest,
             stubbornOnly (facingMode running) = Granted (track :: rest) ->
             capTorch (capabilitiesOf track) = false).
  { intros track rest E. injection E as <- <-. reflexivity. }
  split; [exact H|].
  apply (torch_gated_by_advertised_capability stubbornOnly true running
           (Some (uniformVideo 0)) (Some goodCanvas) plainBrowser
           CameraView.current idle H).
Defined.
